(** * Field-service dispatch: trip planning, recalculation and lifecycle

    A shallow embedding of the trip planning and recalculation core of the
    dispatch application (the planned-trip editor, the map view's route
    drawing, the planning-oracle client, the data service and the active-trip
    screen), with the properties its specification states about them.

    Conventions.
    - A JavaScript [number] that holds a fractional quantity (miles, minutes
      of a candidate trip, dollars, rates) is an IEEE-754 binary64 value,
      Rocq's primitive [float]; timestamps in milliseconds and timer seconds,
      which the code only ever produces as integers, are [Z].
    - [undefined]/[null] is [None].
    - React state is an explicit record; a state setter call is an [Effect]
      in the list of effects a handler performs, in program order. *)

From Stdlib Require Import ZArith Floats Uint63 Lia Ascii String.
From Stdlib Require Import DecimalString DecimalZ DecimalPos.
From Equations Require Import Equations.
From stdpp Require Import base list strings gmap.

Set Default Proof Using "Type".
Set Warnings "-inexact-float".

(** ** JavaScript primitives used by the modelled code *)
Module Js.

(** [!s] for a string: only the empty string is falsy. *)
Definition falsy_string (s : string) : bool := String.eqb s "".

(** [arr[i]] on an array of strings.  Out of range JavaScript yields
    [undefined], which the callers only ever test for falsiness; the empty
    string stands for it. *)
Definition index (arr : list string) (i : nat) : string :=
  default "" (arr !! i).

(** [arr.slice(a, b)] for [0 <= a]. *)
Definition slice {A} (arr : list A) (a b : nat) : list A :=
  take (b - a) (drop a arr).

(** [s.startsWith(p)]. *)
Definition startsWith (s p : string) : bool := String.prefix p s.

(** [s.padStart(n, c)] for a one-character filler. *)
Definition padStart (s : string) (n : nat) (c : ascii) : string :=
  String.string_of_list_ascii (replicate (n - String.length s) c) +:+ s.

(** [s.slice(-n)]: the last [n] characters, or all of [s] when shorter. *)
Definition slice_last (s : string) (n : nat) : string :=
  String.substring (String.length s - n) n s.

(** [s.includes(sub)]. *)
Fixpoint includes (s sub : string) : bool :=
  String.prefix sub s
  || match s with
     | EmptyString => false
     | String _ rest => includes rest sub
     end.

(** [z.toString()] for an integer. *)
Definition toString (z : Z) : string := NilZero.string_of_int (Z.to_int z).

Section Numbers.
Local Open Scope float_scope.

(** [x || 0] for an optional number: [undefined], [NaN] and both zeros
    are falsy. *)
Definition or_zero (x : option float) : float :=
  match x with
  | Some v => if is_nan v || (v =? 0) then 0 else v
  | None => 0
  end.

Definition two52 : float := 4503599627370496.

(** [Math.floor]. Below 2^52 in magnitude, adding and removing 2^52
    rounds to an integer, which is then corrected downwards. *)
Definition Math_floor (x : float) : float :=
  if (two52 <=? abs x) || (x =? 0) then x
  else
    let r := if 0 <? x then (x + two52) - two52 else (x - two52) + two52 in
    if x <? r then r - 1 else r.

(** [Math.round]: nearest integer, ties towards plus infinity. *)
Definition Math_round (x : float) : float :=
  if (0 <? x) && (x <? 0.5) then 0
  else if (x <? 0) && (-0.5 <=? x) then neg_zero
  else
    let f := Math_floor x in
    if (x - f) <? 0.5 then f else f + 1.
End Numbers.

End Js.

(** ** The routing service's interface (declarations of the maps typings) *)
Module Directions.

Record DirectionsRequest := mkRequest
  { origin : string;
    destination : string;
    waypoints : list string }.

Record DirectionsLeg := mkLeg
  { distance : option float;   (* meters *)
    duration : option float }. (* seconds *)

Record DirectionsRoute := mkRoute { legs : list DirectionsLeg }.

Record DirectionsResult := mkResult { routes : list DirectionsRoute }.

Record Response := mkResponse
  { result : option DirectionsResult;
    status : string }.

End Directions.

(** ** Route Provider Adapter: chunked route requests and their aggregation *)
Module Route.
Import Directions.

Definition MAX_WAYPOINTS_PER_REQUEST : nat := 25.

(** The request of the chunk that starts at index [i]: the body shared by
    the loops of [drawTripRoute] and [recalculateTrip]. *)
Definition chunk_request (W : nat) (locations : list string) (i : nat)
  : DirectionsRequest :=
  let chunkEndIndex := (i + W + 1) `min` (length locations - 1) in
  mkRequest (Js.index locations i)
            (Js.index locations chunkEndIndex)
            (Js.slice locations (i + 1) chunkEndIndex).

(** [for (let i = 0; i < locations.length - 1; i += W + 1)] of
    [drawTripRoute]: one request per iteration, in order. *)
Equations? chunk_loop (W : nat) (locations : list string) (i : nat)
  : list DirectionsRequest by wf (length locations - 1 - i) lt :=
chunk_loop W locations i with decide (i < length locations - 1) := {
  | left _ => chunk_request W locations i
                :: chunk_loop W locations (i + (W + 1))
  | right _ => [] }.
Proof. lia. Qed.

(** What the loop of [recalculateTrip] leaves behind: the requests it
    issued, and whether it ran to completion or returned early on a falsy
    origin or destination. *)
Inductive Issue :=
| AllIssued (requests : list DirectionsRequest)
| MissingEndpoint (issuedBefore : list DirectionsRequest).

Definition issue_cons (r : DirectionsRequest) (o : Issue) : Issue :=
  match o with
  | AllIssued rs => AllIssued (r :: rs)
  | MissingEndpoint rs => MissingEndpoint (r :: rs)
  end.

(** The loop of [recalculateTrip]: the same chunks, but each iteration
    first tests [!origin || !destination] and returns, and otherwise
    issues its request at once (the promise executor runs synchronously). *)
Equations? issue_loop (W : nat) (locations : list string) (i : nat)
  : Issue by wf (length locations - 1 - i) lt :=
issue_loop W locations i with decide (i < length locations - 1) := {
  | left _ =>
      let request := chunk_request W locations i in
      if Js.falsy_string (origin request)
         || Js.falsy_string (destination request)
      then MissingEndpoint []
      else issue_cons request (issue_loop W locations (i + (W + 1)))
  | right _ => AllIssued [] }.
Proof. lia. Qed.

(** [[trip.startLocation, ...allStops, trip.endLocation]]. *)
Definition locations_of (startLocation : string) (allStops : list string)
    (endLocation : string) : list string :=
  startLocation :: allStops ++ [endLocation].

(** *** The routing service's contract

    The service is external.  A route through an origin, stop-over
    waypoints and a destination has one leg per pair of consecutive
    places, in travel order. *)
Fixpoint legs_between (places : list string) : list (string * string) :=
  match places with
  | a :: rest =>
      match rest with
      | b :: _ => (a, b) :: legs_between rest
      | [] => []
      end
  | [] => []
  end.

Definition request_places (r : DirectionsRequest) : list string :=
  origin r :: waypoints r ++ [destination r].

Definition request_legs (r : DirectionsRequest) : list (string * string) :=
  legs_between (request_places r).

(** A successful answer of a service that measures each leg by
    [leg_of from to]. *)
Definition respond (leg_of : string -> string -> DirectionsLeg)
    (r : DirectionsRequest) : Response :=
  mkResponse
    (Some (mkResult
             [mkRoute (map (fun l => leg_of l.1 l.2) (request_legs r))]))
    "OK".

(** The single request a service without a waypoint limit would get. *)
Definition unchunked_request (locations : list string) : DirectionsRequest :=
  mkRequest (Js.index locations 0)
            (Js.index locations (length locations - 1))
            (Js.slice locations 1 (length locations - 1)).

(** *** Aggregation of the responses *)

Definition METERS_TO_MILES : float := 0.000621371%float.

(** Body of [legs.forEach]: the running [(totalMiles, travelSeconds)]. *)
Definition add_leg (acc : float * float) (leg : DirectionsLeg)
  : float * float :=
  ((acc.1 + Js.or_zero (distance leg) * METERS_TO_MILES)%float,
   (acc.2 + Js.or_zero (duration leg))%float).

Definition NO_ROUTE_MESSAGE : string :=
  "Could not find a route. Please check if all addresses are correct and accessible.".

(** The message chosen for a failed response. *)
Definition errorMessage (st : string) : string :=
  if String.eqb st "NOT_FOUND" || String.eqb st "ZERO_RESULTS"
  then NO_ROUTE_MESSAGE
  else "Route calculation failed. (Error: " +:+ st +:+ ")".

Inductive Aggregate :=
| Totals (totalMiles travelSeconds : float)
| ChunkFailed (message : string)   (* hasError, after the break *)
| Thrown.                          (* routes[0] is undefined: TypeError *)

(** [for (const response of responses)] with its running totals. *)
Fixpoint aggregate (responses : list Response) (acc : float * float)
  : Aggregate :=
  match responses with
  | [] => Totals acc.1 acc.2
  | response :: rest =>
      match String.eqb (status response) "OK", result response with
      | true, Some res =>
          match routes res with
          | route :: _ => aggregate rest (fold_left add_leg (legs route) acc)
          | [] => Thrown
          end
      | _, _ => ChunkFailed (errorMessage (status response))
      end
  end.



End Route.

(** ** Application data (the [types] module) *)
Module Types.

Inductive OrderStatus :=
| PendingReview | Pending | Active | Completed | Invoiced | Paid.

Record WorkOrderType := mkWorkOrderType
  { wt_id : string;
    typeName : string;
    defaultCompanyId : string;
    defaultBaseRate : float;
    defaultResourcesNeeded : list string;
    isArchived : option bool;
    defaultServiceTimeSeconds : float;
    useAverageServiceTime : option bool }.

Record WorkOrder := mkWorkOrder
  { wo_id : string;
    orderId : string;
    dueDate : string;
    startDate : option string;
    wo_typeName : string;
    clientName : string;
    companyName : string;
    baseRate : float;
    miscFee : float;
    resources : list string;
    isFollowUp : bool;
    wo_status : OrderStatus;
    wo_address : string;
    description : option string;
    completedDate : option string;
    invoicedDate : option string }.

Record SuggestedStop := mkStop
  { workOrderId : string;
    address : string;
    serviceTimeMinutes : float }.

Record SuggestedTrip := mkSuggestedTrip
  { id : string;
    name : string;
    tripNumber : option string;
    stops : list SuggestedStop;
    totalMinutes : float;
    travelMinutes : float;
    serviceMinutes : float;
    totalMiles : float;
    estimatedPayout : float;
    reasoning : string;
    color : option string;
    startLocation : string;
    endLocation : string;
    violation_warning : option string;
    actualTotalMinutes : option float;
    actualTotalMiles : option float }.

(** [{ ...t, stops: newStops }]. *)
Definition with_stops (t : SuggestedTrip) (newStops : list SuggestedStop)
  : SuggestedTrip :=
  mkSuggestedTrip (id t) (name t) (tripNumber t) newStops
    (totalMinutes t) (travelMinutes t) (serviceMinutes t) (totalMiles t)
    (estimatedPayout t) (reasoning t) (color t)
    (startLocation t) (endLocation t) (violation_warning t)
    (actualTotalMinutes t) (actualTotalMiles t).

(** [{ ...t, startLocation: s }] and [{ ...t, endLocation: e }]. *)
Definition with_startLocation (t : SuggestedTrip) (s : string)
  : SuggestedTrip :=
  mkSuggestedTrip (id t) (name t) (tripNumber t) (stops t)
    (totalMinutes t) (travelMinutes t) (serviceMinutes t) (totalMiles t)
    (estimatedPayout t) (reasoning t) (color t)
    s (endLocation t) (violation_warning t)
    (actualTotalMinutes t) (actualTotalMiles t).

Definition with_endLocation (t : SuggestedTrip) (e : string)
  : SuggestedTrip :=
  mkSuggestedTrip (id t) (name t) (tripNumber t) (stops t)
    (totalMinutes t) (travelMinutes t) (serviceMinutes t) (totalMiles t)
    (estimatedPayout t) (reasoning t) (color t)
    (startLocation t) e (violation_warning t)
    (actualTotalMinutes t) (actualTotalMiles t).

(** The four derived metrics a recalculation writes. *)
Record Metrics := mkMetrics
  { m_totalMiles : float;
    m_travelMinutes : float;
    m_serviceMinutes : float;
    m_totalMinutes : float }.

Definition metrics_of (t : SuggestedTrip) : Metrics :=
  mkMetrics (totalMiles t) (travelMinutes t) (serviceMinutes t)
            (totalMinutes t).

(** [{ ...t, totalMiles, travelMinutes, serviceMinutes, totalMinutes }]. *)
Definition with_metrics (t : SuggestedTrip) (m : Metrics) : SuggestedTrip :=
  mkSuggestedTrip (id t) (name t) (tripNumber t) (stops t)
    (m_totalMinutes m) (m_travelMinutes m) (m_serviceMinutes m)
    (m_totalMiles m)
    (estimatedPayout t) (reasoning t) (color t)
    (startLocation t) (endLocation t) (violation_warning t)
    (actualTotalMinutes t) (actualTotalMiles t).

End Types.

(** ** Trip Editor ([PlannedTripEditor]) *)
Module Editor.
Import Directions Types.

(** The component's React state that the modelled handlers touch. *)
Record EditorState := mkEditorState
  { editableTrip : option SuggestedTrip;
    isRecalculating : bool;
    recalculationError : option string;
    isAddStopModalOpen : bool }.

(** What a handler does, in program order: state setter calls and calls
    of [directionsService.route]. *)
Inductive Effect :=
| SetIsRecalculating (b : bool)
| SetRecalculationError (e : option string)
| SetEditableTrip (t : SuggestedTrip)
    (* setEditableTrip(updatedTrip) *)
| PatchMetrics (m : Metrics)
    (* setEditableTrip(prev => prev ? { ...prev, ...m } : null) *)
| SetIsAddStopModalOpen (b : bool)
| RouteCall (request : DirectionsRequest).

Definition apply_effect (s : EditorState) (e : Effect) : EditorState :=
  match e with
  | SetIsRecalculating b =>
      mkEditorState (editableTrip s) b (recalculationError s)
                    (isAddStopModalOpen s)
  | SetRecalculationError err =>
      mkEditorState (editableTrip s) (isRecalculating s) err
                    (isAddStopModalOpen s)
  | SetEditableTrip t =>
      mkEditorState (Some t) (isRecalculating s) (recalculationError s)
                    (isAddStopModalOpen s)
  | PatchMetrics m =>
      mkEditorState
        (match editableTrip s with
         | Some prev => Some (with_metrics prev m)
         | None => None
         end)
        (isRecalculating s) (recalculationError s) (isAddStopModalOpen s)
  | SetIsAddStopModalOpen b =>
      mkEditorState (editableTrip s) (isRecalculating s)
                    (recalculationError s) b
  | RouteCall _ => s
  end.

Definition apply_effects (s : EditorState) (es : list Effect)
  : EditorState := fold_left apply_effect es s.

Definition is_RouteCall (e : Effect) : bool :=
  match e with RouteCall _ => true | _ => false end.

(** The effects that write the trip on display. *)
Definition writes_trip (e : Effect) : bool :=
  match e with SetEditableTrip _ | PatchMetrics _ => true | _ => false end.

(** The error messages an effect list surfaces (non-null
    [setRecalculationError] calls). *)
Definition surfaced (es : list Effect) : list string :=
  omap (fun e => match e with
                 | SetRecalculationError (Some msg) => Some msg
                 | _ => None
                 end) es.

Definition MAPS_LOAD_MESSAGE : string :=
  "Could not load Google Maps API. Please check your connection.".
Definition MISSING_ENDPOINT_MESSAGE : string :=
  "Start or End location is missing. Cannot calculate route.".
Definition UNEXPECTED_MESSAGE : string :=
  "An unexpected error occurred during route calculation.".

(** *** [recalculateTrip]

    The function suspends twice: on [loadGoogleMapsScript()] and on
    [Promise.all(requestPromises)].  [recalculate_start] is everything up
    to the second suspension, given whether the maps script loaded;
    [recalculate_finish] is the continuation, run when the responses of
    this call's requests arrive.  The continuation closes over
    [tripToCalc] only. *)

(** A call of [recalculateTrip] suspended on [Promise.all]. *)
Record Pending := mkPending
  { tripToCalc : SuggestedTrip;
    requests : list DirectionsRequest }.

Record Started := mkStarted
  { start_effects : list Effect;
    awaiting : option Pending }.

Definition trip_locations (t : SuggestedTrip) : list string :=
  Route.locations_of (startLocation t) (map address (stops t))
                     (endLocation t).

Definition recalculate_start (mapsLoaded : bool) (tripToCalc : SuggestedTrip)
  : Started :=
  let opening := [SetIsRecalculating true; SetRecalculationError None] in
  if negb mapsLoaded then
    mkStarted (opening ++ [SetRecalculationError (Some MAPS_LOAD_MESSAGE);
                           SetIsRecalculating false]) None
  else
    match Route.issue_loop Route.MAX_WAYPOINTS_PER_REQUEST
                           (trip_locations tripToCalc) 0 with
    | Route.AllIssued requests =>
        mkStarted (opening ++ map RouteCall requests)
                  (Some (mkPending tripToCalc requests))
    | Route.MissingEndpoint issuedBefore =>
        mkStarted (opening ++ map RouteCall issuedBefore
                     ++ [SetRecalculationError (Some MISSING_ENDPOINT_MESSAGE);
                         SetIsRecalculating false]) None
    end.

(** [stops.reduce((acc, stop) => acc + stop.serviceTimeMinutes, 0)]. *)
Definition sum_serviceMinutes (ss : list SuggestedStop) : float :=
  fold_left (fun acc stop => (acc + serviceTimeMinutes stop)%float) ss 0%float.

(** The metrics written when every response is a success. *)
Definition computed_metrics (tripToCalc : SuggestedTrip)
    (totalMiles travelSeconds : float) : Metrics :=
  let travelMinutes := Js.Math_round (travelSeconds / 60)%float in
  let serviceMinutes := sum_serviceMinutes (stops tripToCalc) in
  mkMetrics totalMiles travelMinutes serviceMinutes
            (travelMinutes + serviceMinutes)%float.

Definition recalculate_finish (tripToCalc : SuggestedTrip)
    (responses : list Response) : list Effect :=
  match Route.aggregate responses (0%float, 0%float) with
  | Route.Totals totalMiles travelSeconds =>
      [PatchMetrics (computed_metrics tripToCalc totalMiles travelSeconds);
       SetIsRecalculating false]
  | Route.ChunkFailed message =>
      [SetRecalculationError (Some message); SetIsRecalculating false]
  | Route.Thrown =>
      [SetRecalculationError (Some UNEXPECTED_MESSAGE);
       SetIsRecalculating false]
  end.

(** *** Handlers *)

Definition handleStopsChange (mapsLoaded : bool)
    (current : option SuggestedTrip) (newStops : list SuggestedStop)
  : Started :=
  match current with
  | Some t =>
      let updatedTrip := with_stops t newStops in
      let started := recalculate_start mapsLoaded updatedTrip in
      mkStarted (SetEditableTrip updatedTrip :: start_effects started)
                (awaiting started)
  | None => mkStarted [] None
  end.

Inductive LocationField := StartLocation | EndLocation.

Definition handleLocationCommit (mapsLoaded : bool)
    (current : option SuggestedTrip) (type : LocationField) (value : string)
  : Started :=
  match current with
  | Some t =>
      let old := match type with
                 | StartLocation => startLocation t
                 | EndLocation => endLocation t
                 end in
      if String.eqb old value then mkStarted [] None
      else
        let updatedTrip := match type with
                           | StartLocation => with_startLocation t value
                           | EndLocation => with_endLocation t value
                           end in
        let started := recalculate_start mapsLoaded updatedTrip in
        mkStarted (SetEditableTrip updatedTrip :: start_effects started)
                  (awaiting started)
  | None => mkStarted [] None
  end.

Definition getOrder (workOrders : list WorkOrder) (i : string)
  : option WorkOrder :=
  List.find (fun wo => String.eqb (wo_id wo) i) workOrders.

Definition getType (workOrderTypes : list WorkOrderType) (n : string)
  : option WorkOrderType :=
  List.find (fun t => String.eqb (typeName t) n) workOrderTypes.

(** [Math.round((type?.defaultServiceTimeSeconds || 0) / 60)]. *)
Definition serviceTime_of (type : option WorkOrderType) : float :=
  Js.Math_round
    (Js.or_zero (defaultServiceTimeSeconds <$> type) / 60)%float.

(** The stop built for one requested id in [handleAddStops]. *)
Definition new_stop (workOrders : list WorkOrder)
    (workOrderTypes : list WorkOrderType) (i : string) : SuggestedStop :=
  let order := getOrder workOrders i in
  let type := order ≫= (fun o => getType workOrderTypes (wo_typeName o)) in
  mkStop i (default "" (wo_address <$> order)) (serviceTime_of type).

Definition current_stops (current : option SuggestedTrip)
  : list SuggestedStop :=
  match current with Some t => stops t | None => [] end.

(** [uniqueNewStops]: the stops built for the requested ids, without
    those of an empty address and those whose id is in [currentStopIds]. *)
Definition uniqueNewStops (workOrders : list WorkOrder)
    (workOrderTypes : list WorkOrderType) (currentStopIds : gset string)
    (workOrderIds : list string) : list SuggestedStop :=
  let newStops :=
    List.filter (fun s => negb (Js.falsy_string (address s)))
                (map (new_stop workOrders workOrderTypes) workOrderIds) in
  filter (fun s => workOrderId s ∉ currentStopIds) newStops.

(** The stop list [handleAddStops] hands to [handleStopsChange]. *)
Definition stops_after_add (workOrders : list WorkOrder)
    (workOrderTypes : list WorkOrderType) (current : option SuggestedTrip)
    (workOrderIds : list string) : list SuggestedStop :=
  let currentStopIds : gset string :=
    list_to_set (map workOrderId (current_stops current)) in
  current_stops current
    ++ uniqueNewStops workOrders workOrderTypes currentStopIds workOrderIds.

Definition handleAddStops (mapsLoaded : bool) (workOrders : list WorkOrder)
    (workOrderTypes : list WorkOrderType) (current : option SuggestedTrip)
    (workOrderIds : list string) : Started :=
  let started :=
    handleStopsChange mapsLoaded current
      (stops_after_add workOrders workOrderTypes current workOrderIds) in
  mkStarted (start_effects started ++ [SetIsAddStopModalOpen false])
            (awaiting started).

(** *** The editing session

    The session is the component state together with the recalculations
    whose continuation has not run yet, oldest first.  An event is a user
    edit, or the arrival of the responses of one pending recalculation. *)

Record Session := mkSession
  { ui : EditorState;
    pending : list Pending }.

Inductive Event :=
| StopsChanged (mapsLoaded : bool) (newStops : list SuggestedStop)
| LocationCommitted (mapsLoaded : bool) (type : LocationField)
                    (value : string)
| Resolved (n : nat) (responses : list Response).

(** The session after a handler ran up to its suspension. *)
Definition after_start (s : Session) (st : Started) : Session :=
  mkSession (apply_effects (ui s) (start_effects st))
    (match awaiting st with
     | Some p => pending s ++ [p]
     | None => pending s
     end).

Definition step (s : Session) (e : Event) : Session :=
  match e with
  | StopsChanged mapsLoaded newStops =>
      after_start s
        (handleStopsChange mapsLoaded (editableTrip (ui s)) newStops)
  | LocationCommitted mapsLoaded type value =>
      after_start s
        (handleLocationCommit mapsLoaded (editableTrip (ui s)) type value)
  | Resolved n responses =>
      match pending s !! n with
      | Some p =>
          mkSession
            (apply_effects (ui s)
               (recalculate_finish (tripToCalc p) responses))
            (delete n (pending s))
      | None => s
      end
  end.

Definition run (s : Session) (es : list Event) : Session :=
  fold_left step es s.

Definition displayed_metrics (s : Session) : option Metrics :=
  metrics_of <$> editableTrip (ui s).

(** The scenario of two overlapping edits: edit A, then edit B, then the
    responses of B's recalculation, then those of A's.  The pending
    recalculations of the two edits sit behind those already pending. *)
Definition edits_A_B (stopsA stopsB : list SuggestedStop) : list Event :=
  [StopsChanged true stopsA; StopsChanged true stopsB].

Definition B_then_A (s : Session) (responsesA responsesB : list Response)
  : list Event :=
  [Resolved (S (length (pending s))) responsesB;
   Resolved (length (pending s)) responsesA].

Definition only_B (s : Session) (responsesB : list Response) : list Event :=
  [Resolved (S (length (pending s))) responsesB].

(** Stale-response suppression as the specification words it: once both
    have resolved, B first, the metrics on display are those B's result
    gave. *)
Definition newer_result_displayed (s : Session)
    (stopsA stopsB : list SuggestedStop)
    (responsesA responsesB : list Response) : Prop :=
  displayed_metrics
    (run s (edits_A_B stopsA stopsB ++ B_then_A s responsesA responsesB))
  = displayed_metrics
      (run s (edits_A_B stopsA stopsB ++ only_B s responsesB)).

(** Adding stops keeps the stops' work-order ids pairwise distinct, for
    whatever ids are requested. *)
Definition add_keeps_ids_distinct (workOrders : list WorkOrder)
    (workOrderTypes : list WorkOrderType) (t : SuggestedTrip)
    (workOrderIds : list string) : Prop :=
  NoDup (map workOrderId (stops t)) ->
  NoDup (map workOrderId
           (stops_after_add workOrders workOrderTypes (Some t) workOrderIds)).

End Editor.

(** ** Trip Constraint Planner: the oracle client ([generateOptimalRoute]) *)
Module Planner.

(** The response schema given to the oracle. *)
Record OracleStop := mkOracleStop
  { workOrderId : string;
    address : string }.

Record OracleTrip := mkOracleTrip
  { name : string;
    stops : list OracleStop;
    totalMinutes : float;
    totalMiles : float;
    estimatedPayout : float;
    reasoning : string;
    startLocation : string;
    endLocation : string;
    violation_warning : option string }.

Record JsonResponse := mkJsonResponse
  { explanation : option string;
    suggestions : option (list OracleTrip) }.

(** What [generateContent] followed by [JSON.parse] comes to: an [Error]
    thrown by either, or the parsed value ([null] is valid JSON). *)
Inductive Reply :=
| Threw (message : string)
| Json (v : option JsonResponse).

(** An oracle trip with the two fields the planner adds. *)
Record Suggestion := mkSuggestion
  { trip : OracleTrip;
    id : string;
    color : option string }.

Record RouteGenerationResult := mkResult
  { result_suggestions : list Suggestion;
    result_explanation : option string }.

Inductive Outcome :=
| Returned (r : RouteGenerationResult)
| Rejected (message : string).

Definition tripColors : list string :=
  ["#4F46E5"; "#059669"; "#DB2777"; "#D97706"; "#6D28D9"].

Definition MALFORMED_PREFIX : string :=
  "The AI planner returned a malformed response. This can sometimes happen with complex addresses. Please try again. Raw error: ".
Definition FAILED_MESSAGE : string :=
  "The AI planner failed to generate a route. This could be due to network issues, restrictive constraints, or an invalid response format. Please try again.".

(** The callback of [jsonResponse.suggestions.map]. *)
Definition with_id_and_color (clock : nat -> Z) (index : nat)
    (t : OracleTrip) : Suggestion :=
  mkSuggestion t
    ("suggested-" +:+ Js.toString (clock index) +:+ "-"
       +:+ Js.toString (Z.of_nat index))
    (tripColors !! (index mod length tripColors)).

(** [generateOptimalRoute] from the oracle's reply on.  The orders only
    feed the prompt; [clock index] is [Date.now()] as read by the [index]-th
    callback. *)
Definition generateOptimalRoute (orders : list Types.WorkOrder)
    (clock : nat -> Z) (reply : Reply) : Outcome :=
  match reply with
  | Json (Some jsonResponse) =>
      match suggestions jsonResponse with
      | Some items =>
          Returned (mkResult (imap (with_id_and_color clock) items)
                             (explanation jsonResponse))
      | None => Returned (mkResult [] None)
      end
  | Json None => Returned (mkResult [] None)
  | Threw message =>
      if Js.includes message "JSON"
      then Rejected (MALFORMED_PREFIX +:+ message)
      else Rejected FAILED_MESSAGE
  end.

(** The work-order ids over all stops of all returned trips, in order. *)
Definition returned_ids (r : RouteGenerationResult) : list string :=
  concat (map (fun sg => map workOrderId (stops (trip sg)))
              (result_suggestions r)).

Definition oracle_ids (items : list OracleTrip) : list string :=
  concat (map (fun t => map workOrderId (stops t)) items).

(** A reply in the shape the response schema demands: an object with its
    required [suggestions] array. *)
Definition schema_valid (reply : Reply) : Prop :=
  exists j items, reply = Json (Some j) /\ suggestions j = Some items.

(** Full coverage as the specification words it: for a reply of the
    demanded shape, the ids over the returned trips' stops are exactly the
    ids of the orders, each once. *)
Definition covers_exactly (orders : list Types.WorkOrder)
    (clock : nat -> Z) (reply : Reply) : Prop :=
  schema_valid reply ->
  exists r, generateOptimalRoute orders clock reply = Returned r
            /\ returned_ids r ≡ₚ map Types.wo_id orders.

End Planner.

(** ** Persisted trips: [dataService.addTrip] and the reducer *)
Module DataService.

Record TripStop := mkTripStop
  { workOrderId : string;
    isCompleted : bool;
    timeSpentSeconds : Z }.

Inductive TripStatus := Planning | Planned | Active | Completed.

Record Trip := mkTrip
  { id : string;
    name : string;
    tripNumber : string;
    stops : list TripStop;
    startTime : option Z;   (* timestamp, ms *)
    endTime : option Z;     (* timestamp, ms *)
    totalTimeSeconds : Z;
    status : TripStatus;
    startLocation : string;
    endLocation : string;
    totalMiles : option float;
    estimatedPayout : option float }.

(** The local calendar fields of a [Date]: [getFullYear()], [getMonth()]
    (0-based) and [getDate()]. *)
Record JsDate := mkDate
  { getFullYear : Z;
    getMonth : Z;
    getDate : Z }.

Definition datePrefix (tripDate : JsDate) : string :=
  let year := Js.slice_last (Js.toString (getFullYear tripDate)) 2 in
  let month := Js.padStart (Js.toString (getMonth tripDate + 1)) 2 "0" in
  let day := Js.padStart (Js.toString (getDate tripDate)) 2 "0" in
  month +:+ day +:+ year.

(** The format MMDDYY: month, day of the month and year within the
    century, two decimal digits each. *)
Definition two_digits (k : Z) : string :=
  Js.toString (k / 10) +:+ Js.toString (k mod 10).

Definition MMDDYY (d : JsDate) : string :=
  two_digits (getMonth d + 1) +:+ two_digits (getDate d)
    +:+ two_digits (getFullYear d mod 100).

(** [newTrip.startTime ? ... : ...]: [null], [undefined] and [0] are
    falsy. *)
Definition scheduled (startTime : option Z) : option Z :=
  match startTime with
  | Some t => if (t =? 0)%Z then None else Some t
  | None => None
  end.

(** [t.tripNumber && t.tripNumber.startsWith(datePrefix)]. *)
Definition onSameDay (prefix : string) (t : Trip) : bool :=
  negb (Js.falsy_string (tripNumber t))
  && Js.startsWith (tripNumber t) prefix.

Definition with_id (t : Trip) (i : string) : Trip :=
  mkTrip i (name t) (tripNumber t) (stops t) (startTime t) (endTime t)
    (totalTimeSeconds t) (status t) (startLocation t) (endLocation t)
    (totalMiles t) (estimatedPayout t).

Definition with_tripNumber (t : Trip) (n : string) : Trip :=
  mkTrip (id t) (name t) n (stops t) (startTime t) (endTime t)
    (totalTimeSeconds t) (status t) (startLocation t) (endLocation t)
    (totalMiles t) (estimatedPayout t).

Section AddTrip.
(** [new Date(ms)] read in the browser's time zone. *)
Variable localDate : Z -> JsDate.

Definition tripDate_of (now : Z) (newTrip : Trip) : JsDate :=
  match scheduled (startTime newTrip) with
  | Some t => localDate t
  | None => localDate now
  end.

(** [addTrip]: the returned trip and the stored trips afterwards;
    [now] is the clock when the trip is created. *)
Definition addTrip (now : Z) (trips : list Trip) (trip : Trip)
  : Trip * list Trip :=
  let newTrip := with_id trip (Js.toString now) in
  let prefix := datePrefix (tripDate_of now newTrip) in
  let tripsOnSameDay := List.filter (onSameDay prefix) trips in
  let newSuffix := (Z.of_nat (length tripsOnSameDay) + 1)%Z in
  let newTrip :=
    with_tripNumber newTrip (prefix +:+ "-" +:+ Js.toString newSuffix) in
  (newTrip, trips ++ [newTrip]).
End AddTrip.

(** Numbering as the specification words it: the new trip's number begins
    with the prefix of its [startTime] when it has one, and of the current
    date otherwise. *)
Definition numbered_by_startTime (localDate : Z -> JsDate) (now : Z)
    (trips : list Trip) (trip : Trip) : Prop :=
  let day := match startTime trip with
             | Some t => localDate t
             | None => localDate now
             end in
  Js.startsWith (tripNumber (addTrip localDate now trips trip).1)
                (datePrefix day) = true.

(** The reducer's [UPDATE_TRIP] case. *)
Definition update_trip (trips : list Trip) (payload : Trip) : list Trip :=
  map (fun t => if String.eqb (id t) (id payload) then payload else t) trips.

End DataService.

(** ** More of the data service and the reducer *)
Module Store.
Import DataService.

(** [dataService.deleteTrip] and the reducer's [DELETE_TRIP]. *)
Definition deleteTrip (trips : list Trip) (i : string) : list Trip :=
  List.filter (fun t => negb (String.eqb (id t) i)) trips.

(** [state.trips.find(t => t.id === tripId)]. *)
Definition findTrip (trips : list Trip) (i : string) : option Trip :=
  List.find (fun t => String.eqb (id t) i) trips.

Record Company := mkCompany
  { c_id : string;
    c_name : string;
    contactRep : string;
    contactEmail : string;
    contactPhone : string;
    contractFileName : option string;
    c_isArchived : option bool;
    defaultImportProfileId : option string }.

Record CsvColumnMapping := mkMapping
  { m_orderId : option string;
    m_dueDate : option string;
    m_startDate : option string;
    m_clientName : option string;
    m_address1 : option string;
    m_address2 : option string;
    m_city : option string;
    m_state : option string;
    m_zip : option string;
    m_typeName : option string }.

Record ImportProfile := mkProfile
  { p_id : string;
    p_name : string;
    mapping : CsvColumnMapping;
    companyId : string }.

(** [dataService.deleteCompany] and the reducer's [DELETE_COMPANY]: the
    companies and the import profiles afterwards. *)
Definition deleteCompany (companies : list Company)
    (importProfiles : list ImportProfile) (i : string)
  : list Company * list ImportProfile :=
  (List.filter (fun c => negb (String.eqb (c_id c) i)) companies,
   List.filter (fun p => negb (String.eqb (companyId p) i)) importProfiles).

(** [dataService.updateWorkOrder] and the reducer's [UPDATE_WORK_ORDER]. *)
Definition update_work_order (workOrders : list Types.WorkOrder)
    (payload : Types.WorkOrder) : list Types.WorkOrder :=
  map (fun wo => if String.eqb (Types.wo_id wo) (Types.wo_id payload)
                 then payload else wo) workOrders.

End Store.

(** ** The application context ([AppContext.tsx]) *)
Module Context.
Import DataService.

(** The slices of [AppState] that the trip screen's handlers touch. *)
Record AppState := mkAppState
  { trips : list Trip;
    workOrders : list Types.WorkOrder }.

(** The two actions those handlers build. *)
Inductive Action :=
| UPDATE_TRIP (payload : Trip)
| UPDATE_WORK_ORDER (payload : Types.WorkOrder).

(** [appReducer] on these actions. *)
Definition appReducer (state : AppState) (action : Action) : AppState :=
  match action with
  | UPDATE_TRIP payload =>
      mkAppState (update_trip (trips state) payload) (workOrders state)
  | UPDATE_WORK_ORDER payload =>
      mkAppState (trips state)
                 (Store.update_work_order (workOrders state) payload)
  end.

(** The provider's [dispatch], from [useReducer(appReducer, emptyState)]. *)
Definition Dispatch : Type := Action -> AppState -> AppState.

Definition provider_dispatch : Dispatch :=
  fun action state => appReducer state action.

(** The members of the object the provider passes down as the context
    [value]. *)
Definition value_members : list string :=
  ["state"; "isLoading"; "addWorkOrderType"; "updateWorkOrderType";
   "deleteWorkOrderType"; "toggleArchiveWorkOrderType"; "addWorkOrder";
   "updateWorkOrder"; "addTrip"; "updateTrip"; "deleteTrip"; "addCompany";
   "updateCompany"; "deleteCompany"; "toggleArchiveCompany";
   "addImportProfile"; "updateImportProfile"; "deleteImportProfile";
   "addOfficeLocation"; "updateOfficeLocation"; "deleteOfficeLocation";
   "updateTripSettings"; "updateFinancialGoals"; "setEditingTarget";
   "setPrintRequest"].

Definition has_member (name : string) : bool :=
  existsb (String.eqb name) value_members.

(** What [const { state, dispatch } = useAppContext()] binds to
    [dispatch]: the member of that name of the context value, and
    [undefined] when the value has none. *)
Definition destructured_dispatch : option Dispatch :=
  if has_member "dispatch" then Some provider_dispatch else None.

(** How a handler ends. *)
Inductive Completion := Returned | TypeError.

(** [dispatch(action)] for a binding of [dispatch]: calling [undefined]
    throws a TypeError and no action reaches the reducer. *)
Definition call (dispatch : option Dispatch) (action : Action)
    (state : AppState) : AppState * Completion :=
  match dispatch with
  | Some d => (d action state, Returned)
  | None => (state, TypeError)
  end.

End Context.

(** ** Trip Lifecycle: the timer hook and the active-trip screen *)
Module TripScreen.
Import DataService.

(** [useTimer]'s state; [intervalRef] records whether an interval is
    installed. *)
Record Timer := mkTimer
  { elapsedSeconds : Z;
    isActive : bool;
    intervalRef : bool }.

Definition mount (initialSeconds : Z) : Timer :=
  mkTimer initialSeconds false false.

Inductive TimerEvent :=
| Start   (* start() *)
| Pause   (* pause() *)
| Tick.   (* the interval fires *)

(** One event, for the hook's current [initialSeconds] prop.  After
    [pause] the component renders with [isActive] false, and the effect
    that depends on it runs [setElapsedSeconds(initialSeconds)]. *)
Definition timer_step (initialSeconds : Z) (t : Timer) (e : TimerEvent)
  : Timer :=
  match e with
  | Start =>
      if isActive t then t else mkTimer (elapsedSeconds t) true true
  | Pause =>
      if isActive t && intervalRef t
      then mkTimer initialSeconds false false
      else t
  | Tick =>
      if intervalRef t
      then mkTimer (elapsedSeconds t + 1) (isActive t) (intervalRef t)
      else t
  end.

Definition timer_run (initialSeconds : Z) (es : list TimerEvent) : Timer :=
  fold_left (timer_step initialSeconds) es (mount initialSeconds).

(** [stop()]: pauses and returns the elapsed seconds of this render. *)
Definition stop (t : Timer) : Z := elapsedSeconds t.

(** [state.trips.find(t => t.status === 'Active')]. *)
Definition activeTrip (trips : list Trip) : option Trip :=
  List.find (fun t => match status t with Active => true | _ => false end)
            trips.

(** [handleStartTrip]'s update of the trip. *)
Definition started_trip (tripToStart : Trip) (now : Z) : Trip :=
  mkTrip (id tripToStart) (name tripToStart) (tripNumber tripToStart)
    (stops tripToStart) (Some now) (endTime tripToStart)
    (totalTimeSeconds tripToStart) Active
    (startLocation tripToStart) (endLocation tripToStart)
    (totalMiles tripToStart) (estimatedPayout tripToStart).

(** [handleStopTrip] for a binding of [dispatch]: the store afterwards and
    how the handler ends; [now] is [Date.now()]. *)
Definition handleStopTrip (dispatch : option Context.Dispatch)
    (state : Context.AppState) (timer : Timer) (now : Z)
  : Context.AppState * Context.Completion :=
  match activeTrip (Context.trips state) with
  | None => (state, Context.Returned)
  | Some t =>
      let finalTime := stop timer in
      Context.call dispatch
        (Context.UPDATE_TRIP
           (mkTrip (id t) (name t) (tripNumber t) (stops t) (startTime t)
              (Some now) finalTime Completed
              (startLocation t) (endLocation t)
              (totalMiles t) (estimatedPayout t)))
        state
  end.

(** The trip screen's timer for a list of trips:
    [useTimer(activeTrip?.totalTimeSeconds || 0)]. *)
Definition initialSeconds_of (active : option Trip) : Z :=
  match active with Some t => totalTimeSeconds t | None => 0 end.

(** Stopping as the specification words it, for a store whose active trip
    [trip] was started at [T0], whose timer has seen [events] and which is
    stopped at [T1]. *)
Definition stop_records_wall_clock (dispatch : option Context.Dispatch)
    (state : Context.AppState) (trip : Trip) (T0 T1 : Z)
    (events : list TimerEvent) : Prop :=
  activeTrip (Context.trips state) = Some trip ->
  startTime trip = Some T0 ->
  exists stopped,
    Store.findTrip
      (Context.trips
         (handleStopTrip dispatch state
            (timer_run (initialSeconds_of (Some trip)) events) T1).1)
      (id trip) = Some stopped
    /\ status stopped = Completed
    /\ endTime stopped = Some T1
    /\ totalTimeSeconds stopped = ((T1 - T0) / 1000)%Z
    /\ map isCompleted (stops stopped) = map isCompleted (stops trip).

End TripScreen.

(** ** Metrics Engine: the rates shown by [MetricsDisplay] and the office KPIs *)
Module Metrics.
Import Types.
Local Open Scope float_scope.

(** [(getOrder(id)?.baseRate || 0) + (getOrder(id)?.miscFee || 0)] summed
    over the stops. *)
Definition estimatedPayout (getOrder : string -> option WorkOrder)
    (stops : list SuggestedStop) : float :=
  fold_left
    (fun acc stop =>
       acc + (Js.or_zero (baseRate <$> getOrder (workOrderId stop))
              + Js.or_zero (miscFee <$> getOrder (workOrderId stop))))
    stops 0.

Definition perHourRate (estimatedPayout totalMinutes : float) : float :=
  let hours := totalMinutes / 60 in
  if 0 <? hours then estimatedPayout / hours else 0.

Definition perMileRate (estimatedPayout totalMiles : float) : float :=
  if 0 <? totalMiles then estimatedPayout / totalMiles else 0.

(** The office screen's [kpis.perHourRate], and its [kpis.perMileRate],
    which is a constant and not computed from any mileage. *)
Definition kpis_perHourRate (totalRevenue totalTimeHours : float) : float :=
  if 0 <? totalTimeHours then totalRevenue / totalTimeHours else 0.

Definition kpis_perMileRate : float := 2.50.

End Metrics.

(** ** More of the Trip Editor, its add-stop dialog and the map view *)
Module EditorOps.
Import Directions Types Editor.

(** [drawTripRoute] of the map view: the route requests it sends for a
    trip. *)
Definition drawTripRoute (trip : SuggestedTrip) : list DirectionsRequest :=
  if Js.falsy_string (startLocation trip)
     || Js.falsy_string (endLocation trip)
  then []
  else Route.chunk_loop Route.MAX_WAYPOINTS_PER_REQUEST
                        (trip_locations trip) 0.

(** [{ ...s, serviceTimeMinutes: newTime }]. *)
Definition with_serviceTime (s : SuggestedStop) (newTime : float)
  : SuggestedStop :=
  mkStop (workOrderId s) (address s) newTime.

(** The stop list [handleServiceTimeChange] builds. *)
Definition retimed (ss : list SuggestedStop) (i : string) (newTime : float)
  : list SuggestedStop :=
  map (fun s => if String.eqb (workOrderId s) i
                then with_serviceTime s newTime else s) ss.

(** [handleServiceTimeChange]: it sets the trip and calls nothing else. *)
Definition handleServiceTimeChange (current : option SuggestedTrip)
    (i : string) (newTime : float) : list Effect :=
  match current with
  | None => []
  | Some t =>
      let newStops := retimed (stops t) i newTime in
      let serviceMinutes := sum_serviceMinutes newStops in
      let newTotalMinutes := (travelMinutes t + serviceMinutes)%float in
      [SetEditableTrip
         (mkSuggestedTrip (id t) (name t) (tripNumber t) newStops
            newTotalMinutes (travelMinutes t) serviceMinutes (totalMiles t)
            (estimatedPayout t) (reasoning t) (color t)
            (startLocation t) (endLocation t) (violation_warning t)
            (actualTotalMinutes t) (actualTotalMiles t))]
  end.

(** [stops.filter(s => s.workOrderId !== workOrderId)]. *)
Definition without_stop (ss : list SuggestedStop) (i : string)
  : list SuggestedStop :=
  List.filter (fun s => negb (String.eqb (workOrderId s) i)) ss.

(** [handleRemoveStop]. *)
Definition handleRemoveStop (mapsLoaded : bool)
    (current : option SuggestedTrip) (i : string) : Started :=
  handleStopsChange mapsLoaded current
    (match current with
     | Some t => without_stop (stops t) i
     | None => []
     end).

(** [arr.splice(i, 1)]: the element taken out, if there is one, and the
    array afterwards. *)
Definition splice_out {A} (arr : list A) (i : nat) : option A * list A :=
  (arr !! i, delete i arr).

(** [arr.splice(i, 0, x)]; an index past the end inserts at the end. *)
Definition splice_in {A} (arr : list A) (i : nat) (x : A) : list A :=
  take i arr ++ x :: drop i arr.

(** [handleDragEnd], for the values of the two index refs.  A drag index
    past the end of the stops would splice [undefined] into the array, which
    the stop type has no value for: the result is then [None]. *)
Definition handleDragEnd (mapsLoaded : bool) (current : option SuggestedTrip)
    (dragItemIndex dragOverItemIndex : option nat) : option Started :=
  match dragItemIndex, dragOverItemIndex, current with
  | Some from, Some to, Some t =>
      if bool_decide (from = to) then Some (mkStarted [] None)
      else
        match splice_out (stops t) from with
        | (Some draggedItem, newStops) =>
            Some (handleStopsChange mapsLoaded current
                    (splice_in newStops to draggedItem))
        | (None, _) => None
        end
  | _, _, _ => Some (mkStarted [] None)
  end.

(** The add-stop dialog's selection, a [Set<string>]: its members in
    insertion order.  [handleToggleSelection] deletes the id when it is
    selected and adds it otherwise. *)
Definition handleToggleSelection (selectedIds : list string)
    (orderId : string) : list string :=
  if bool_decide (orderId ∈ selectedIds)
  then List.filter (fun i => negb (String.eqb i orderId)) selectedIds
  else selectedIds ++ [orderId].

(** [Array.from(selectedIds)] after the given clicks on a dialog that
    opened with an empty selection: what the dialog hands to
    [onAddStops]. *)
Definition selected (clicks : list string) : list string :=
  fold_left handleToggleSelection clicks [].

(** [availableOrders] of the add-stop dialog. *)
Definition availableOrders (workOrders : list WorkOrder)
    (trips : list DataService.Trip) (currentTrip : SuggestedTrip)
  : list WorkOrder :=
  let plannedOrderIds : gset string :=
    list_to_set
      (flat_map (fun t => map DataService.workOrderId (DataService.stops t))
                trips) in
  let currentTripOrderIds : gset string :=
    list_to_set (map workOrderId (stops currentTrip)) in
  List.filter
    (fun wo => match wo_status wo with Types.Pending => true | _ => false end
               && bool_decide (wo_id wo ∉ plannedOrderIds)
               && bool_decide (wo_id wo ∉ currentTripOrderIds))
    workOrders.

(** A whole number of seconds or milliseconds taken into floating-point
    arithmetic (exact below 2^53 in magnitude). *)
Definition of_Z (z : Z) : float :=
  match z with
  | Z0 => 0%float
  | Zpos _ => PrimFloat.of_uint63 (Uint63.of_Z z)
  | Zneg q => (- PrimFloat.of_uint63 (Uint63.of_Z (Zpos q)))%float
  end.

Section Load.
Variables (workOrders : list WorkOrder) (workOrderTypes : list WorkOrderType).

(** [getServiceTime]. *)
Definition getServiceTime (orderId : string) : float :=
  serviceTime_of
    (getOrder workOrders orderId
       ≫= fun o => getType workOrderTypes (wo_typeName o)).

Definition ADDRESS_NOT_FOUND : string := "Address not found".

(** [order?.address || 'Address not found']. *)
Definition address_or_not_found (order : option WorkOrder) : string :=
  match order with
  | Some o => if Js.falsy_string (wo_address o) then ADDRESS_NOT_FOUND
              else wo_address o
  | None => ADDRESS_NOT_FOUND
  end.

(** [detailedStops] of a persisted trip. *)
Definition detailedStops (trip : DataService.Trip) : list SuggestedStop :=
  List.filter
    (fun s => negb (String.eqb (address s) ADDRESS_NOT_FOUND))
    (map (fun stop =>
            mkStop (DataService.workOrderId stop)
                   (address_or_not_found
                      (getOrder workOrders (DataService.workOrderId stop)))
                   (getServiceTime (DataService.workOrderId stop)))
         (DataService.stops trip)).

(** [stopsWithServiceTime] of a candidate trip. *)
Definition stopsWithServiceTime (ss : list SuggestedStop)
  : list SuggestedStop :=
  map (fun s => with_serviceTime s (getServiceTime (workOrderId s))) ss.

(** [tripToLoad] of the loading effect; a persisted trip is told from a
    candidate by its [totalTimeSeconds] field. *)
Definition tripToLoad (initialTrip : DataService.Trip + SuggestedTrip)
  : SuggestedTrip :=
  match initialTrip with
  | inl trip =>
      let serviceMinutes := sum_serviceMinutes (detailedStops trip) in
      mkSuggestedTrip (DataService.id trip) (DataService.name trip)
        (Some (DataService.tripNumber trip)) (detailedStops trip)
        (of_Z (DataService.totalTimeSeconds trip) / 60)%float
        (of_Z (DataService.totalTimeSeconds trip) / 60 - serviceMinutes)%float
        serviceMinutes 0%float 0%float "" (Some "#4F46E5")
        (DataService.startLocation trip) (DataService.endLocation trip)
        None None None
  | inr suggested =>
      let newStops := stopsWithServiceTime (stops suggested) in
      let serviceMinutes := sum_serviceMinutes newStops in
      mkSuggestedTrip (id suggested) (name suggested) (tripNumber suggested)
        newStops (totalMinutes suggested)
        (totalMinutes suggested - serviceMinutes)%float serviceMinutes
        (totalMiles suggested) (estimatedPayout suggested)
        (reasoning suggested) (color suggested)
        (startLocation suggested) (endLocation suggested)
        (violation_warning suggested)
        (actualTotalMinutes suggested) (actualTotalMiles suggested)
  end.

(** The loading effect: [setEditableTrip(tripToLoad)] and then
    [recalculateTrip(tripToLoad)]. *)
Definition load (mapsLoaded : bool)
    (initialTrip : DataService.Trip + SuggestedTrip) : Started :=
  let started := recalculate_start mapsLoaded (tripToLoad initialTrip) in
  mkStarted (SetEditableTrip (tripToLoad initialTrip) :: start_effects started)
            (awaiting started).
End Load.

End EditorOps.

(** ** The planner's prompt: [sanitizeForPrompt] and the ids it hands out *)
Module Prompt.

Definition BACKSLASH : ascii := "092"%char.
Definition QUOTE : ascii := "034"%char.
Definition NEWLINE : ascii := "010"%char.

(** [s.replace(/c/g, by)] for a single character [c]. *)
Fixpoint replace_all (c : ascii) (by_ : string) (s : string) : string :=
  match s with
  | EmptyString => EmptyString
  | String a rest =>
      if Ascii.eqb a c then by_ +:+ replace_all c by_ rest
      else String a (replace_all c by_ rest)
  end.

Definition sanitizeForPrompt (str : string) : string :=
  if Js.falsy_string str then ""
  else
    replace_all NEWLINE " "
      (replace_all QUOTE (String BACKSLASH (String QUOTE ""))
         (replace_all BACKSLASH (String BACKSLASH (String BACKSLASH "")) str)).

(** Reading escaped text back: a backslash makes the next character
    stand for itself. *)
Fixpoint unescape (s : string) : string :=
  match s with
  | EmptyString => EmptyString
  | String a rest =>
      if Ascii.eqb a BACKSLASH then
        match rest with
        | String b rest' => String b (unescape rest')
        | EmptyString => String a EmptyString
        end
      else String a (unescape rest)
  end.

(** Escaped text: every backslash is followed by a backslash or a double
    quote that it escapes, and outside such pairs there is no double quote
    and no line feed. *)
Fixpoint well_escaped (s : string) : bool :=
  match s with
  | EmptyString => true
  | String a rest =>
      if Ascii.eqb a BACKSLASH then
        match rest with
        | String b rest' =>
            (Ascii.eqb b BACKSLASH || Ascii.eqb b QUOTE) && well_escaped rest'
        | EmptyString => false
        end
      else negb (Ascii.eqb a QUOTE) && negb (Ascii.eqb a NEWLINE)
           && well_escaped rest
  end.

End Prompt.

(** ** More of the trip lifecycle: starting a trip, completing a stop, the
    timer's display *)
Module Lifecycle.
Import DataService.

(** [{ ...order, status: s }] and
    [{ ...order, status: s, completedDate: d }]. *)
Definition with_status (o : Types.WorkOrder) (s : Types.OrderStatus)
    (completed : option string) : Types.WorkOrder :=
  Types.mkWorkOrder (Types.wo_id o) (Types.orderId o) (Types.dueDate o)
    (Types.startDate o) (Types.wo_typeName o) (Types.clientName o)
    (Types.companyName o) (Types.baseRate o) (Types.miscFee o)
    (Types.resources o) (Types.isFollowUp o) s (Types.wo_address o)
    (Types.description o) completed (Types.invoicedDate o).

(** [handleStartTrip]: the trips and the work orders after its updates
    have been applied, in the order of its calls.  Each order is looked up
    in the work orders the handler was rendered with. *)
Definition handleStartTrip (trips : list Trip)
    (workOrders : list Types.WorkOrder) (tripId : string) (now : Z)
  : list Trip * list Types.WorkOrder :=
  match Store.findTrip trips tripId with
  | None => (trips, workOrders)
  | Some tripToStart =>
      (update_trip trips (TripScreen.started_trip tripToStart now),
       fold_left
         (fun current stop =>
            match Editor.getOrder workOrders (workOrderId stop) with
            | Some order =>
                Store.update_work_order current
                  (with_status order Types.Active (Types.completedDate order))
            | None => current
            end)
         (stops tripToStart) workOrders)
  end.

(** [{ ...s, isCompleted: true }]. *)
Definition completed_stop (s : TripStop) : TripStop :=
  mkTripStop (workOrderId s) true (timeSpentSeconds s).

(** [{ ...activeTrip, stops: newStops }]. *)
Definition with_trip_stops (t : Trip) (newStops : list TripStop) : Trip :=
  mkTrip (id t) (name t) (tripNumber t) newStops (startTime t) (endTime t)
    (totalTimeSeconds t) (status t) (startLocation t) (endLocation t)
    (totalMiles t) (estimatedPayout t).

(** [completeStop] of a stop card for a binding of [dispatch]: the store
    afterwards and how the handler ends.  [order] is the card's work order
    and [today] is [new Date().toISOString()].  The second action is built
    only when the first call has returned. *)
Definition completeStop (dispatch : option Context.Dispatch)
    (state : Context.AppState) (tripId : string) (stop : TripStop)
    (order : Types.WorkOrder) (today : string)
  : Context.AppState * Context.Completion :=
  match Store.findTrip (Context.trips state) tripId with
  | None => (state, Context.Returned)
  | Some activeTrip =>
      let newStops :=
        map (fun s => if String.eqb (workOrderId s) (workOrderId stop)
                      then completed_stop s else s)
            (stops activeTrip) in
      match Context.call dispatch
              (Context.UPDATE_TRIP (with_trip_stops activeTrip newStops))
              state with
      | (state1, Context.Returned) =>
          Context.call dispatch
            (Context.UPDATE_WORK_ORDER
               (with_status order Types.Completed (Some today)))
            state1
      | (state1, Context.TypeError) => (state1, Context.TypeError)
      end
  end.

(** How often the interval fired. *)
Definition ticks (events : list TripScreen.TimerEvent) : Z :=
  Z.of_nat (length (List.filter (fun e => match e with
                                          | TripScreen.Tick => true
                                          | _ => false
                                          end) events)).

(** [formatTime] of the timer hook, for a whole number of seconds:
    [Math.floor] of a quotient is [Z.div], [%] is [Z.rem]. *)
Definition formatTime (totalSeconds : Z) : string :=
  let hours := Js.padStart (Js.toString (totalSeconds / 3600)) 2 "0" in
  let minutes :=
    Js.padStart (Js.toString (Z.rem totalSeconds 3600 / 60)) 2 "0" in
  let seconds := Js.padStart (Js.toString (Z.rem totalSeconds 60)) 2 "0" in
  hours +:+ ":" +:+ minutes +:+ ":" +:+ seconds.

End Lifecycle.

(** ** Concrete data for the examples *)
Module Examples.
Import Directions Types.

(** Thirty stops, and a service that reports every leg as 8046.72 m driven
    in ten minutes. *)
Definition thirty_stops : list string :=
  map (fun k => "stop " +:+ Js.toString (Z.of_nat k)) (seq 1 30).

Definition flat_leg (_ _ : string) : DirectionsLeg :=
  mkLeg (Some 8046.72%float) (Some 600%float).

Definition stop_at (i : string) (minutes : float) : SuggestedStop :=
  mkStop i ("address of " +:+ i) minutes.

(** A candidate trip with no stops yet, between two depots. *)
Definition empty_trip : SuggestedTrip :=
  mkSuggestedTrip "suggested-1-0" "North route" None []
    0%float 0%float 0%float 0%float 0%float "" (Some "#4F46E5")
    "depot A" "depot B" None None None.

(** Twenty-six stops and a cleared end location. *)
Definition long_trip_without_end : SuggestedTrip :=
  with_endLocation
    (with_stops empty_trip
       (map (fun k => mkStop (Js.toString (Z.of_nat k))
                             ("stop " +:+ Js.toString (Z.of_nat k)) 30%float)
            (seq 1 26)))
    "".

Definition order_a : WorkOrder :=
  mkWorkOrder "a" "WO-1" "2026-11-05" None "Courier Delivery" "Client"
    "Speedy Couriers" 50%float 0%float [] false Pending
    "12 Elm St" None None None.

(** An editing session on [empty_trip] with nothing in flight. *)
Definition idle_session : Editor.Session :=
  Editor.mkSession
    (Editor.mkEditorState (Some empty_trip) false None false) [].

(** Edit A puts one stop on the trip, edit B two. *)
Definition stops_A : list SuggestedStop := [stop_at "a" 30%float].
Definition stops_B : list SuggestedStop :=
  [stop_at "a" 30%float; stop_at "b" 45%float].

(** What the service answers to the requests of a recalculation of [t]. *)
Definition responses_for (t : SuggestedTrip) : list Response :=
  map (Route.respond flat_leg)
      (Route.chunk_loop Route.MAX_WAYPOINTS_PER_REQUEST
                        (Editor.trip_locations t) 0).

Definition responses_A : list Response :=
  responses_for (with_stops empty_trip stops_A).
Definition responses_B : list Response :=
  responses_for (with_stops empty_trip stops_B).

Definition order_b : WorkOrder :=
  mkWorkOrder "b" "WO-2" "2026-11-06" None "Home Inspection" "Client"
    "Reliable Inspectors" 400%float 25%float [] false Pending
    "9 Oak Ave" None None None.

(** An oracle reply in the demanded shape whose single trip visits only
    order [a]. *)
Definition reply_without_b : Planner.Reply :=
  Planner.Json
    (Some (Planner.mkJsonResponse None
             (Some [Planner.mkOracleTrip "North route"
                      [Planner.mkOracleStop "a" "12 Elm St"]
                      75%float 12.5%float 50%float "Closest first."
                      "depot A" "depot B" None]))).

(** An oracle reply that visits [b] and then [a]. *)
Definition reply_b_a : Planner.JsonResponse :=
  Planner.mkJsonResponse None
    (Some [Planner.mkOracleTrip "North route"
             [Planner.mkOracleStop "b" "9 Oak Ave";
              Planner.mkOracleStop "a" "12 Elm St"]
             240%float 31%float 475%float "Longest job first."
             "depot A" "depot B" None]).

Definition clock_at (now : Z) (_ : nat) : Z := now.

(** A browser in UTC: the civil date of a timestamp. *)
Definition utcDate (ms : Z) : DataService.JsDate :=
  let z := (ms / 86400000 + 719468)%Z in
  let era := (z / 146097)%Z in
  let doe := (z - era * 146097)%Z in
  let yoe := ((doe - doe / 1460 + doe / 36524 - doe / 146096) / 365)%Z in
  let doy := (doe - (365 * yoe + yoe / 4 - yoe / 100))%Z in
  let mp := ((5 * doy + 2) / 153)%Z in
  let d := (doy - (153 * mp + 2) / 5 + 1)%Z in
  let m := (if mp <? 10 then mp + 3 else mp - 9)%Z in
  let y := (yoe + era * 400 + (if m <=? 2 then 1 else 0))%Z in
  DataService.mkDate y (m - 1) d.

(** 2026-11-05 14:30 UTC and 2026-11-20 09:00 UTC. *)
Definition nov_5 : Z := 1793889000000.
Definition nov_20 : Z := 1795165200000.

(** A trip as [handleApprove] hands it to [addTrip]: two stops, two hours
    estimated. *)
Definition approved (startTime : option Z) : DataService.Trip :=
  DataService.mkTrip "" "North route" ""
    [DataService.mkTripStop "a" false 0; DataService.mkTripStop "b" false 0]
    startTime None 7200 DataService.Planned "depot A" "depot B"
    (Some 31%float) (Some 475%float).

Definition numbered (n : string) : DataService.Trip :=
  DataService.with_tripNumber (approved None) n.

(** Three trips of 5 November 2026 with suffixes 1, 2 and 7, and one of
    another day. *)
Definition stored_trips : list DataService.Trip :=
  [numbered "110526-1"; numbered "110426-1"; numbered "110526-2";
   numbered "110526-7"].

(** The approved trip once stored and started at [nov_5]. *)
Definition active_trip : DataService.Trip :=
  TripScreen.started_trip
    (DataService.addTrip utcDate nov_5 [] (approved None)).1 nov_5.

(** A store that holds that trip and the two orders on its stops. *)
Definition active_store : Context.AppState :=
  Context.mkAppState [active_trip] [order_a; order_b].

End Examples.

(** * Properties *)

(** ** Chunking *)
Section Chunking.
Import Directions Route.

Lemma chunk_loop_eq W (locations : list string) i :
  chunk_loop W locations i =
    if decide (i < length locations - 1)
    then chunk_request W locations i :: chunk_loop W locations (i + (W + 1))
    else [].
Proof.
  funelim (chunk_loop W locations i); rewrite Heq; reflexivity.
Qed.

Lemma issue_loop_eq W (locations : list string) i :
  issue_loop W locations i =
    if decide (i < length locations - 1)
    then
      if Js.falsy_string (origin (chunk_request W locations i))
         || Js.falsy_string (destination (chunk_request W locations i))
      then MissingEndpoint []
      else issue_cons (chunk_request W locations i)
                      (issue_loop W locations (i + (W + 1)))
    else AllIssued [].
Proof.
  funelim (issue_loop W locations i); rewrite Heq; reflexivity.
Qed.

Lemma legs_between_split (l : list string) n :
  legs_between l = legs_between (take (S n) l) ++ legs_between (drop n l).
Proof.
  revert l. induction n as [|n IH]; intros l.
  - destruct l as [|a [|b l]]; reflexivity.
  - destruct l as [|a [|b l']]; try reflexivity.
    { simpl. rewrite drop_nil. reflexivity. }
    change (legs_between (a :: b :: l')) with ((a, b) :: legs_between (b :: l')).
    rewrite (IH (b :: l')). reflexivity.
Qed.

Lemma chunk_places (l : list string) i e :
  i < e -> e < length l ->
  request_places (mkRequest (Js.index l i) (Js.index l e)
                            (Js.slice l (i + 1) e))
  = take (S (e - i)) (drop i l).
Proof.
  intros Hie He. unfold request_places, Js.index, Js.slice. simpl.
  destruct (lookup_lt_is_Some_2 l i) as [a Ha]; [lia|].
  destruct (lookup_lt_is_Some_2 l e) as [b Hb]; [lia|].
  rewrite Ha, Hb. simpl.
  rewrite (drop_S l a i Ha). simpl. f_equal.
  replace (i + 1) with (S i) by lia.
  replace (e - i) with (S (e - S i)) by lia.
  rewrite (take_S_r (drop (S i) l) (e - S i) b).
  - reflexivity.
  - rewrite lookup_drop. replace (S i + (e - S i)) with e by lia. exact Hb.
Qed.

Lemma legs_between_short (l : list string) :
  length l <= 1 -> legs_between l = [].
Proof. destruct l as [|a [|b l']]; simpl; intros; [done|done|lia]. Qed.

Lemma chunk_request_legs W (l : list string) i :
  i < length l - 1 ->
  request_legs (chunk_request W l i) ++ legs_between (drop (i + (W + 1)) l)
  = legs_between (drop i l).
Proof.
  intros Hi. unfold request_legs, chunk_request.
  set (e := (i + W + 1) `min` (length l - 1)).
  rewrite chunk_places by lia.
  rewrite (legs_between_split (drop i l) (e - i)). f_equal.
  rewrite drop_drop. replace (i + (e - i)) with e by lia.
  destruct (decide (i + W + 1 <= length l - 1)) as [Hle|Hgt].
  - replace e with (i + (W + 1)) by lia. reflexivity.
  - rewrite !legs_between_short; [done| |]; rewrite length_drop; lia.
Qed.

(** From index [i] on, the chunks' legs are the legs of the rest of the
    list, in order. *)
Lemma chunk_loop_legs W (l : list string) i :
  concat (map request_legs (chunk_loop W l i)) = legs_between (drop i l).
Proof.
  remember (length l - 1 - i) as m eqn:Hm. revert i Hm.
  induction m as [m IH] using lt_wf_ind. intros i Hm.
  rewrite chunk_loop_eq.
  destruct (decide (i < length l - 1)) as [Hlt|Hge].
  - cbn [map concat].
    rewrite (IH (length l - 1 - (i + (W + 1)))) by lia.
    apply chunk_request_legs, Hlt.
  - symmetry. apply legs_between_short. rewrite length_drop. lia.
Qed.

Lemma chunk_loop_adjacent W (l : list string) k :
  forall i c c',
    chunk_loop W l i !! k = Some c ->
    chunk_loop W l i !! S k = Some c' ->
    destination c = origin c'.
Proof.
  induction k as [|k IH]; intros i c c'; rewrite chunk_loop_eq;
    destruct (decide (i < length l - 1)) as [Hlt|Hge]; try discriminate.
  - rewrite (chunk_loop_eq W l (i + (W + 1))).
    destruct (decide (i + (W + 1) < length l - 1)) as [Hlt'|]; [|discriminate].
    cbn. intros [= <-] [= <-]. cbn. f_equal. lia.
  - cbn. apply IH.
Qed.

Lemma chunk_loop_waypoints W (l : list string) i :
  Forall (fun c => length (waypoints c) <= W) (chunk_loop W l i).
Proof.
  remember (length l - 1 - i) as m eqn:Hm. revert i Hm.
  induction m as [m IH] using lt_wf_ind. intros i Hm.
  rewrite chunk_loop_eq.
  destruct (decide (i < length l - 1)) as [Hlt|Hge]; [|constructor].
  constructor; [|apply (IH (length l - 1 - (i + (W + 1)))); lia].
  cbn [chunk_request waypoints]. unfold Js.slice.
  rewrite length_take. lia.
Qed.

Lemma issue_loop_all W (l : list string) i requests :
  issue_loop W l i = AllIssued requests -> requests = chunk_loop W l i.
Proof.
  remember (length l - 1 - i) as m eqn:Hm. revert i requests Hm.
  induction m as [m IH] using lt_wf_ind. intros i requests Hm.
  rewrite issue_loop_eq, chunk_loop_eq.
  destruct (decide (i < length l - 1)) as [Hlt|Hge]; [|congruence].
  destruct (_ || _); [discriminate|].
  destruct (issue_loop W l (i + (W + 1))) as [rs|rs] eqn:Hrest;
    cbn; [|discriminate].
  intros [= <-]. f_equal.
  apply (IH (length l - 1 - (i + (W + 1)))); [lia|reflexivity|exact Hrest].
Qed.

Lemma aggregate_respond leg_of (reqs : list DirectionsRequest) acc :
  aggregate (map (respond leg_of) reqs) acc =
    let acc' := fold_left add_leg
                  (map (fun l => leg_of l.1 l.2)
                       (concat (map request_legs reqs))) acc in
    Totals acc'.1 acc'.2.
Proof.
  revert acc. induction reqs as [|r reqs IH]; intros acc; [reflexivity|].
  cbn [map aggregate respond status result routes legs String.eqb concat].
  change (String.eqb "OK" "OK") with true. cbv iota.
  rewrite IH. cbv zeta. rewrite map_app, fold_left_app. reflexivity.
Qed.

Lemma unchunked_request_legs (l : list string) :
  2 <= length l -> request_legs (unchunked_request l) = legs_between l.
Proof.
  intros Hl. unfold request_legs, unchunked_request.
  pose proof (chunk_places l 0 (length l - 1)) as H.
  cbn [Nat.add] in H. rewrite H by lia.
  rewrite drop_0, take_ge by lia. reflexivity.
Qed.

(** C2.  For the locations of any trip, the chunks of the route loop join
    end to start (the destination of each chunk is the origin of the
    next), the legs of the chunks taken in order are exactly the legs of
    the one request a service without a waypoint limit would get, and so
    the totals aggregated from the chunks' responses are those aggregated
    from that single response.  No chunk carries more than 25 waypoints,
    and the requests [recalculateTrip] has issued when its loop completes
    are these chunks. *)
Theorem chunked_route_is_unchunked_route
    (startLocation : string) (allStops : list string) (endLocation : string)
    (leg_of : string -> string -> DirectionsLeg) :
  let locations := locations_of startLocation allStops endLocation in
  let chunks := chunk_loop MAX_WAYPOINTS_PER_REQUEST locations 0 in
  (forall k c c',
      chunks !! k = Some c -> chunks !! S k = Some c' ->
      destination c = origin c')
  /\ concat (map request_legs chunks)
     = request_legs (unchunked_request locations)
  /\ aggregate (map (respond leg_of) chunks) (0%float, 0%float)
     = aggregate [respond leg_of (unchunked_request locations)]
                 (0%float, 0%float)
  /\ Forall (fun c => length (waypoints c) <= 25) chunks
  /\ (forall requests,
         issue_loop MAX_WAYPOINTS_PER_REQUEST locations 0
         = AllIssued requests ->
         requests = chunks).
Proof.
  intros locations chunks.
  assert (Hlen : 2 <= length locations).
  { unfold locations, locations_of. cbn. rewrite length_app. cbn. lia. }
  assert (Hlegs : concat (map request_legs chunks)
                  = request_legs (unchunked_request locations)).
  { unfold chunks. rewrite chunk_loop_legs, drop_0.
    symmetry. apply unchunked_request_legs, Hlen. }
  split; [|split; [exact Hlegs|split; [|split]]].
  - intros k c c'. apply chunk_loop_adjacent.
  - rewrite (aggregate_respond leg_of chunks).
    rewrite (aggregate_respond leg_of [unchunked_request locations]).
    cbn [map concat]. rewrite app_nil_r, Hlegs. reflexivity.
  - apply chunk_loop_waypoints.
  - intros requests. apply issue_loop_all.
Qed.

End Chunking.

Lemma chunked_route_is_unchunked_route_witness :
  let locations := Route.locations_of "depot A" Examples.thirty_stops "depot B" in
  let chunks := Route.chunk_loop Route.MAX_WAYPOINTS_PER_REQUEST locations 0 in
  length chunks = 2
  /\ (Directions.destination <$> chunks !! 0) = Some "stop 26"
  /\ (Directions.origin <$> chunks !! 1) = Some "stop 26"
  /\ length (concat (map Route.request_legs chunks)) = 31
  /\ Route.aggregate (map (Route.respond Examples.flat_leg) chunks) (0%float, 0%float)
     = Route.aggregate
         [Route.respond Examples.flat_leg (Route.unchunked_request locations)]
         (0%float, 0%float).
Proof.
  intros locations chunks.
  destruct (chunked_route_is_unchunked_route
              "depot A" Examples.thirty_stops "depot B" Examples.flat_leg)
    as (Hadj & Hlegs & Hsum & _ & _).
  split; [reflexivity|]. split; [reflexivity|]. split.
  - destruct (chunks !! 0) as [c|] eqn:H0; [|discriminate].
    destruct (chunks !! 1) as [c'|] eqn:H1; [|discriminate].
    cbn. f_equal. rewrite <- (Hadj 0 c c' H0 H1).
    vm_compute in H0. injection H0 as <-. reflexivity.
  - split; [|exact Hsum].
    fold locations chunks in Hlegs. rewrite Hlegs. reflexivity.
Defined.

(** ** Recalculation in the Trip Editor *)
Section Recalculation.
Import Directions Types Route Editor.



(** *** The start of a recalculation *)

Lemma apply_effects_keeps_trip (es : list Effect) (s : EditorState) :
  Forall (fun e => writes_trip e = false) es ->
  editableTrip (apply_effects s es) = editableTrip s.
Proof.
  revert s. induction es as [|e es IH]; intros s Hes; [reflexivity|].
  apply Forall_cons in Hes as [He Hes].
  change (apply_effects s (e :: es))
    with (apply_effects (apply_effect s e) es).
  rewrite (IH _ Hes).
  destruct e; try discriminate; reflexivity.
Qed.

Lemma recalculate_start_writes_no_trip mapsLoaded (t : SuggestedTrip) :
  Forall (fun e => writes_trip e = false)
         (start_effects (recalculate_start mapsLoaded t)).
Proof.
  unfold recalculate_start. destruct mapsLoaded; cbn [negb].
  - destruct (issue_loop _ _ _) as [rs|rs]; cbn [start_effects];
      repeat (apply Forall_app; split); repeat constructor;
      apply List.Forall_map, Forall_true; reflexivity.
  - repeat constructor.
Qed.






Lemma trip_locations_length (t : SuggestedTrip) :
  length (trip_locations t) = S (S (length (stops t))).
Proof.
  unfold trip_locations, locations_of. cbn.
  rewrite length_app, length_map. cbn. lia.
Qed.

(** With an empty start, or an empty end and at most 25 stops, the first
    iteration of the loop already returns: the missing-endpoint message is
    set and no route request has been issued. *)
Lemma missing_endpoint_before_any_request (t : SuggestedTrip) :
  startLocation t = ""
  \/ (endLocation t = "" /\ length (stops t) <= MAX_WAYPOINTS_PER_REQUEST) ->
  recalculate_start true t
  = mkStarted [SetIsRecalculating true; SetRecalculationError None;
               SetRecalculationError (Some MISSING_ENDPOINT_MESSAGE);
               SetIsRecalculating false] None.
Proof.
  intros H. unfold recalculate_start. cbn [negb].
  rewrite issue_loop_eq.
  destruct (decide (0 < length (trip_locations t) - 1)) as [_|Hn];
    [|rewrite trip_locations_length in Hn; lia].
  assert (Hfalsy :
            Js.falsy_string
              (origin (chunk_request MAX_WAYPOINTS_PER_REQUEST
                                     (trip_locations t) 0))
            || Js.falsy_string
                 (destination (chunk_request MAX_WAYPOINTS_PER_REQUEST
                                             (trip_locations t) 0))
            = true).
  { destruct H as [Hs|[He Hlen]].
    - cbn. rewrite Hs. reflexivity.
    - apply orb_true_iff. right. cbn [chunk_request destination].
      rewrite trip_locations_length.
      replace ((0 + MAX_WAYPOINTS_PER_REQUEST + 1)
                 `min` (S (S (length (stops t))) - 1))
        with (S (length (stops t))) by lia.
      unfold trip_locations, locations_of, Js.index.
      change ((startLocation t :: map address (stops t) ++ [endLocation t])
                !! S (length (stops t)))
        with ((map address (stops t) ++ [endLocation t])
                !! length (stops t)).
      rewrite list_lookup_middle by (rewrite length_map; reflexivity).
      cbn. rewrite He. reflexivity. }
  rewrite Hfalsy. reflexivity.
Qed.

(** With a start, more than 25 stops and an address for the 26th, the first
    chunk is requested whatever the end location is. *)
Lemma long_trip_first_request (t : SuggestedTrip) :
  startLocation t <> "" ->
  MAX_WAYPOINTS_PER_REQUEST < length (stops t) ->
  Js.index (trip_locations t) (MAX_WAYPOINTS_PER_REQUEST + 1) <> "" ->
  exists rest,
    List.filter is_RouteCall (start_effects (recalculate_start true t))
    = RouteCall (chunk_request MAX_WAYPOINTS_PER_REQUEST (trip_locations t) 0)
        :: map RouteCall rest.
Proof.
  intros Hstart Hlong H26. unfold recalculate_start. cbn [negb].
  rewrite issue_loop_eq.
  destruct (decide (0 < length (trip_locations t) - 1)) as [_|Hn];
    [|rewrite trip_locations_length in Hn; lia].
  assert (Horigin : Js.falsy_string
                      (origin (chunk_request MAX_WAYPOINTS_PER_REQUEST
                                             (trip_locations t) 0)) = false).
  { cbn. by apply String.eqb_neq. }
  assert (Hdest : Js.falsy_string
                    (destination (chunk_request MAX_WAYPOINTS_PER_REQUEST
                                                (trip_locations t) 0)) = false).
  { cbn [chunk_request destination]. rewrite trip_locations_length.
    replace ((0 + MAX_WAYPOINTS_PER_REQUEST + 1)
               `min` (S (S (length (stops t))) - 1))
      with (MAX_WAYPOINTS_PER_REQUEST + 1) by lia.
    by apply String.eqb_neq. }
  rewrite Horigin, Hdest. cbn [orb].
  assert (Hcalls : forall rs,
             List.filter is_RouteCall (map RouteCall rs) = map RouteCall rs).
  { induction rs as [|r rs IH]; [reflexivity|]. cbn. by rewrite IH. }
  destruct (issue_loop _ _ _) as [rs|rs]; exists rs;
    cbn [issue_cons start_effects app map List.filter is_RouteCall].
  - by rewrite Hcalls.
  - rewrite List.filter_app, Hcalls. cbn. by rewrite app_nil_r.
Qed.

(** C5, at a trip of 26 stops whose end location has been cleared: the
    first chunk, from the start to the 26th stop, is requested from the
    routing service before the second chunk's empty destination is noticed;
    then the missing-endpoint message is set and nothing is awaited. *)
Theorem missing_end_after_first_request :
  let started := recalculate_start true Examples.long_trip_without_end in
  List.filter is_RouteCall (start_effects started)
  = [RouteCall
       (mkRequest "depot A" "stop 26"
          (map (fun k => "stop " +:+ Js.toString (Z.of_nat k)) (seq 1 25)))]
  /\ surfaced (start_effects started) = [MISSING_ENDPOINT_MESSAGE]
  /\ awaiting started = None.
Proof. vm_compute. repeat split. Qed.

(** *** Overlapping recalculations *)

Lemma step_StopsChanged (s : Session) (t : SuggestedTrip)
    (newStops : list SuggestedStop) (p : Pending) :
  editableTrip (ui s) = Some t ->
  awaiting (recalculate_start true (with_stops t newStops)) = Some p ->
  editableTrip (ui (step s (StopsChanged true newStops)))
  = Some (with_stops t newStops)
  /\ pending (step s (StopsChanged true newStops)) = pending s ++ [p]
  /\ tripToCalc p = with_stops t newStops.
Proof.
  intros Ht Hp. cbn [step]. rewrite Ht. cbn [handleStopsChange].
  unfold after_start. cbn [ui pending start_effects awaiting]. rewrite Hp.
  split; [|split; [reflexivity|]].
  - change (apply_effects (ui s) (SetEditableTrip (with_stops t newStops) :: ?es))
      with (apply_effects (apply_effect (ui s)
                             (SetEditableTrip (with_stops t newStops))) es).
    rewrite apply_effects_keeps_trip
      by apply recalculate_start_writes_no_trip.
    reflexivity.
  - revert Hp. unfold recalculate_start. cbn [negb].
    destruct (issue_loop _ _ _); cbn; [|discriminate].
    by intros [= <-].
Qed.

Lemma step_Resolved (s : Session) n (p : Pending) (t : SuggestedTrip)
    (responses : list Response) miles seconds :
  pending s !! n = Some p ->
  editableTrip (ui s) = Some t ->
  aggregate responses (0%float, 0%float) = Totals miles seconds ->
  editableTrip (ui (step s (Resolved n responses)))
  = Some (with_metrics t (computed_metrics (tripToCalc p) miles seconds))
  /\ pending (step s (Resolved n responses)) = delete n (pending s).
Proof.
  intros Hp Ht Hagg. cbn [step]. rewrite Hp. cbn [ui pending].
  unfold recalculate_finish. rewrite Hagg. cbn. rewrite Ht. done.
Qed.


Lemma metrics_of_with_metrics (t : SuggestedTrip) (m : Metrics) :
  metrics_of (with_metrics t m) = m.
Proof. destruct m; reflexivity. Qed.

(** C1, as the code has it.  Edit A and then edit B each start a
    recalculation, and both are in flight.  When B's responses arrive the
    display shows the metrics computed from them for B's stop list.  When
    A's responses arrive afterwards, the continuation of A's recalculation
    writes its own metrics, computed from A's responses and A's stop list,
    over them: the trip on display then has B's stops with A's metrics.
    The recalculation that resolves last wins, not the newest edit. *)
Theorem stale_response_overwrites_newer_result
    (s : Session) (t0 : SuggestedTrip)
    (stopsA stopsB : list SuggestedStop) (pA pB : Pending)
    (responsesA responsesB : list Response)
    (milesA secondsA milesB secondsB : float) :
  editableTrip (ui s) = Some t0 ->
  awaiting (recalculate_start true (with_stops t0 stopsA)) = Some pA ->
  awaiting (recalculate_start true (with_stops t0 stopsB)) = Some pB ->
  aggregate responsesA (0%float, 0%float) = Totals milesA secondsA ->
  aggregate responsesB (0%float, 0%float) = Totals milesB secondsB ->
  let after_B := run s (edits_A_B stopsA stopsB ++ only_B s responsesB) in
  let final :=
    run s (edits_A_B stopsA stopsB ++ B_then_A s responsesA responsesB) in
  displayed_metrics after_B
  = Some (computed_metrics (with_stops t0 stopsB) milesB secondsB)
  /\ displayed_metrics final
     = Some (computed_metrics (with_stops t0 stopsA) milesA secondsA)
  /\ (stops <$> editableTrip (ui final)) = Some stopsB
  /\ pending final = pending s.
Proof.
  intros Ht HpA HpB HaggA HaggB after_B final.
  destruct (step_StopsChanged s t0 stopsA pA Ht HpA) as (Ht1 & Hp1 & HtA).
  set (s1 := step s (StopsChanged true stopsA)) in *.
  destruct (step_StopsChanged s1 (with_stops t0 stopsA) stopsB pB Ht1 HpB)
    as (Ht2 & Hp2 & HtB).
  set (s2 := step s1 (StopsChanged true stopsB)) in *.
  rewrite Hp1 in Hp2.
  assert (HlookB : pending s2 !! S (length (pending s)) = Some pB).
  { rewrite Hp2. apply list_lookup_middle. rewrite length_app. cbn. lia. }
  destruct (step_Resolved s2 _ pB _ responsesB milesB secondsB
              HlookB Ht2 HaggB) as (Ht3 & Hp3).
  set (s3 := step s2 (Resolved (S (length (pending s))) responsesB)) in *.
  assert (Hp3' : pending s3 = pending s ++ [pA]).
  { rewrite Hp3, Hp2.
    replace (S (length (pending s))) with (length (pending s ++ [pA]))
      by (rewrite length_app; cbn; lia).
    rewrite delete_middle. apply app_nil_r. }
  assert (HlookA : pending s3 !! length (pending s) = Some pA).
  { rewrite Hp3'. by apply list_lookup_middle. }
  destruct (step_Resolved s3 _ pA _ responsesA milesA secondsA
              HlookA Ht3 HaggA) as (Ht4 & Hp4).
  change after_B with s3. change final with (step s3 (Resolved (length (pending s)) responsesA)).
  unfold displayed_metrics. rewrite Ht3, Ht4, Hp4, Hp3', HtA, HtB.
  cbn [fmap option_fmap option_map]. rewrite !metrics_of_with_metrics.
  repeat split. rewrite delete_middle. apply app_nil_r.
Qed.

Lemma stale_response_overwrites_newer_result_witness :
  let final :=
    run Examples.idle_session
        (edits_A_B Examples.stops_A Examples.stops_B
           ++ B_then_A Examples.idle_session
                       Examples.responses_A Examples.responses_B) in
  (m_travelMinutes <$> displayed_metrics final) = Some 20%float
  /\ (m_serviceMinutes <$> displayed_metrics final) = Some 30%float
  /\ (stops <$> editableTrip (ui final)) = Some Examples.stops_B.
Proof.
  intros final.
  edestruct (stale_response_overwrites_newer_result
               Examples.idle_session Examples.empty_trip
               Examples.stops_A Examples.stops_B)
    with (responsesA := Examples.responses_A)
         (responsesB := Examples.responses_B)
    as (_ & HA & Hstops & _);
    [reflexivity
    |vm_compute; reflexivity
    |vm_compute; reflexivity
    |vm_compute; reflexivity
    |vm_compute; reflexivity
    |].
  fold final in HA, Hstops. rewrite HA. split; [|split].
  - vm_compute. reflexivity.
  - vm_compute. reflexivity.
  - exact Hstops.
Defined.

(** C1 as worded fails in that session: once both recalculations have
    resolved, B's first, the metrics on display are not the ones B's
    result gave. *)
Lemma stale_response_not_suppressed :
  ~ newer_result_displayed Examples.idle_session
      Examples.stops_A Examples.stops_B
      Examples.responses_A Examples.responses_B.
Proof.
  unfold newer_result_displayed. intros H.
  apply (f_equal (fun o => match o with
                           | Some m => PrimFloat.eqb (m_travelMinutes m) 20
                           | None => false
                           end)) in H.
  vm_compute in H. discriminate.
Qed.

End Recalculation.

(** ** Adding stops in the Trip Editor *)
Section AddStops.
Import Types Editor.

Variables (workOrders : list WorkOrder) (workOrderTypes : list WorkOrderType).

Local Abbreviation added := (uniqueNewStops workOrders workOrderTypes).

Lemma added_spec present workOrderIds (st : SuggestedStop) :
  st ∈ added present workOrderIds ->
  workOrderId st ∈ workOrderIds
  /\ (workOrderId st ∉ present)
  /\ address st <> "".
Proof.
  unfold uniqueNewStops. rewrite list_elem_of_filter, list_elem_of_In, filter_In.
  rewrite in_map_iff. intros (Hfresh & (i & <- & Hi) & Haddr).
  split; [by apply list_elem_of_In|]. split; [exact Hfresh|].
  intros Hempty. rewrite Hempty in Haddr. discriminate.
Qed.

Lemma added_NoDup present workOrderIds :
  NoDup workOrderIds -> NoDup (map workOrderId (added present workOrderIds)).
Proof.
  induction workOrderIds as [|i ids IH]; intros Hids; [constructor|].
  apply NoDup_cons in Hids as [Hi Hids]. specialize (IH Hids).
  unfold uniqueNewStops in *. cbn [map List.filter].
  destruct (negb _); [|exact IH].
  rewrite filter_cons. case_decide; [|exact IH].
  cbn [map]. apply NoDup_cons. split; [|exact IH].
  change (workOrderId (new_stop workOrders workOrderTypes i)) with i.
  intros Hin. apply Hi.
  apply list_elem_of_In, in_map_iff in Hin as (st & <- & Hst).
  apply list_elem_of_In, added_spec in Hst. tauto.
Qed.

Lemma added_iff present workOrderIds (st : SuggestedStop) :
  st ∈ added present workOrderIds <->
  exists i, i ∈ workOrderIds
            /\ st = new_stop workOrders workOrderTypes i
            /\ (i ∉ present) /\ address st <> "".
Proof.
  unfold uniqueNewStops.
  rewrite list_elem_of_filter, list_elem_of_In, filter_In, in_map_iff.
  rewrite negb_true_iff. unfold Js.falsy_string. rewrite String.eqb_neq.
  split.
  - intros (Hfresh & (i & <- & Hi) & Haddr). exists i.
    split; [by apply list_elem_of_In|]. done.
  - intros (i & Hi & -> & Hfresh & Haddr).
    split; [exact Hfresh|]. split; [|exact Haddr].
    exists i. split; [reflexivity|by apply list_elem_of_In].
Qed.

Lemma toggle_NoDup (selectedIds : list string) (orderId : string) :
  NoDup selectedIds ->
  NoDup (EditorOps.handleToggleSelection selectedIds orderId).
Proof.
  intros Hnd. unfold EditorOps.handleToggleSelection. case_bool_decide.
  - apply NoDup_ListNoDup, List.NoDup_filter, NoDup_ListNoDup, Hnd.
  - apply NoDup_app. split; [exact Hnd|]. split; [|apply NoDup_singleton].
    intros x Hx Hx'. apply list_elem_of_singleton in Hx'. by subst.
Qed.

(** Whatever is clicked in the add-stop dialog, the ids it hands over are
    pairwise distinct. *)
Lemma selected_NoDup (clicks : list string) : NoDup (EditorOps.selected clicks).
Proof.
  unfold EditorOps.selected.
  assert (H : forall sel, NoDup sel ->
                NoDup (fold_left EditorOps.handleToggleSelection clicks sel)).
  { induction clicks as [|c clicks IH]; intros sel Hsel; [exact Hsel|].
    cbn [fold_left]. apply IH, toggle_NoDup, Hsel. }
  apply H, NoDup_nil_2.
Qed.

Lemma after_add_NoDup (t : SuggestedTrip) (workOrderIds : list string) :
  NoDup (map workOrderId (stops t)) ->
  NoDup workOrderIds ->
  NoDup (map workOrderId
           (stops_after_add workOrders workOrderTypes (Some t) workOrderIds)).
Proof.
  intros Hold Hids. unfold stops_after_add. cbn [current_stops].
  rewrite map_app. apply NoDup_app. split; [exact Hold|].
  split; [|by apply added_NoDup].
  intros i Hi Hin.
  apply list_elem_of_In, in_map_iff in Hin as (st & <- & Hst).
  apply list_elem_of_In, added_spec in Hst as (_ & Hfresh & _).
  apply Hfresh. by apply elem_of_list_to_set.
Qed.

(** C9.  For every trip on display and every list of requested ids, the
    handler replaces the trip by the same trip with the new stop list,
    which is the old list followed by the added stops; the added stops are
    exactly the stops built for the requested ids that are not yet on the
    trip and whose work order resolves to a non-empty address, so ids
    already present and empty addresses are skipped.  With the ids on the
    trip pairwise distinct beforehand, they are pairwise distinct
    afterwards for every request the add-stop dialog can hand over (its
    selection after any clicks), as for every request of pairwise distinct
    ids. *)
Theorem add_stops_deduplicates (mapsLoaded : bool) (s : EditorState)
    (t : SuggestedTrip) (workOrderIds clicks : list string) :
  let after :=
    stops_after_add workOrders workOrderTypes (Some t) workOrderIds in
  (editableTrip s = Some t ->
   editableTrip
     (apply_effects s
        (start_effects
           (handleAddStops mapsLoaded workOrders workOrderTypes
                           (editableTrip s) workOrderIds)))
   = Some (with_stops t after))
  /\ (exists new, after = stops t ++ new
       /\ forall st, st ∈ new <->
            exists i, i ∈ workOrderIds
                      /\ st = new_stop workOrders workOrderTypes i
                      /\ (i ∉ map workOrderId (stops t))
                      /\ address st <> "")
  /\ (NoDup (map workOrderId (stops t)) ->
      NoDup (map workOrderId
               (stops_after_add workOrders workOrderTypes (Some t)
                                (EditorOps.selected clicks))))
  /\ (NoDup (map workOrderId (stops t)) -> NoDup workOrderIds ->
      NoDup (map workOrderId after)).
Proof.
  intros after.
  set (present := list_to_set (map workOrderId (stops t)) : gset string).
  assert (Hafter : after = stops t ++ added present workOrderIds)
    by reflexivity.
  split; [|split; [|split]].
  - intros Ht. rewrite Ht. unfold handleAddStops, handleStopsChange.
    cbn [start_effects]. fold after.
    change (apply_effects s ((SetEditableTrip (with_stops t after) :: ?es) ++ ?k))
      with (apply_effects (apply_effect s (SetEditableTrip (with_stops t after)))
                          (es ++ k)).
    rewrite apply_effects_keeps_trip; [reflexivity|].
    apply Forall_app. split; [|by repeat constructor].
    apply recalculate_start_writes_no_trip.
  - exists (added present workOrderIds). split; [exact Hafter|].
    intros st. rewrite added_iff. unfold present.
    by setoid_rewrite elem_of_list_to_set.
  - intros Hold. apply after_add_NoDup; [exact Hold|apply selected_NoDup].
  - apply after_add_NoDup.
Qed.

End AddStops.

Lemma add_stops_deduplicates_witness :
  let after :=
    Editor.stops_after_add [Examples.order_a; Examples.order_b] []
      (Some (Types.with_stops Examples.empty_trip Examples.stops_A))
      (EditorOps.selected ["a"; "b"; "missing"; "b"; "b"]) in
  NoDup (map Types.workOrderId after)
  /\ map Types.workOrderId after = ["a"; "b"].
Proof.
  intros after.
  destruct (add_stops_deduplicates
              [Examples.order_a; Examples.order_b] [] true
              (Editor.mkEditorState
                 (Some (Types.with_stops Examples.empty_trip Examples.stops_A))
                 false None true)
              (Types.with_stops Examples.empty_trip Examples.stops_A)
              [] ["a"; "b"; "missing"; "b"; "b"])
    as (_ & _ & Hdistinct & _).
  split; [apply Hdistinct; compute_done|]. vm_compute. reflexivity.
Defined.

(** The handler does not compare the requested ids with each other: for
    a list that names an id twice, which the dialog never hands over, both
    copies pass the test against the ids already on the trip. *)
Lemma add_stops_repeated_request :
  ~ Editor.add_keeps_ids_distinct [Examples.order_a] []
      Examples.empty_trip ["a"; "a"].
Proof.
  intros H. specialize (H (NoDup_nil_2 (A:=string))). vm_compute in H.
  apply NoDup_cons in H as [Hnotin _]. apply Hnotin. left.
Qed.

(** ** The planner's handling of the oracle's reply *)
Section PlannerFacts.
Import Planner.

Lemma trip_imap (f : nat -> OracleTrip -> Suggestion)
    (items : list OracleTrip) :
  (forall i t, trip (f i t) = t) -> map trip (imap f items) = items.
Proof.
  revert f. induction items as [|t items IH]; intros f Hf; [reflexivity|].
  cbn. rewrite Hf. f_equal. apply IH. intros i t'. apply Hf.
Qed.

Lemma returned_ids_trips (r : RouteGenerationResult) :
  returned_ids r = oracle_ids (map trip (result_suggestions r)).
Proof.
  unfold returned_ids, oracle_ids. rewrite List.map_map. reflexivity.
Qed.

(** C3, as the code has it.  For a reply that carries a [suggestions]
    array the planner returns one suggestion per oracle trip, in order, each
    being the oracle's trip with an id and a colour added: the stops are
    the oracle's, untouched and unchecked.  So the returned ids cover the
    input orders exactly when the oracle's own ids do. *)
Theorem planner_returns_oracle_stops (orders : list Types.WorkOrder)
    (clock : nat -> Z) (j : JsonResponse) (items : list OracleTrip) :
  suggestions j = Some items ->
  exists r,
    generateOptimalRoute orders clock (Json (Some j)) = Returned r
    /\ map trip (result_suggestions r) = items
    /\ returned_ids r = oracle_ids items
    /\ (returned_ids r ≡ₚ map Types.wo_id orders
        <-> oracle_ids items ≡ₚ map Types.wo_id orders).
Proof.
  intros Hitems. cbn [generateOptimalRoute]. rewrite Hitems.
  eexists. split; [reflexivity|].
  assert (Htrips : map trip (imap (with_id_and_color clock) items) = items)
    by (apply trip_imap; reflexivity).
  assert (Hids : returned_ids
                   (mkResult (imap (with_id_and_color clock) items)
                             (explanation j))
                 = oracle_ids items).
  { rewrite returned_ids_trips. cbn [result_suggestions]. by rewrite Htrips. }
  split; [exact Htrips|]. split; [exact Hids|]. by rewrite Hids.
Qed.

End PlannerFacts.

Lemma planner_returns_oracle_stops_witness :
  exists r,
    Planner.generateOptimalRoute [Examples.order_a; Examples.order_b]
      (Examples.clock_at Examples.nov_5) (Planner.Json (Some Examples.reply_b_a))
    = Planner.Returned r
    /\ Planner.returned_ids r = ["b"; "a"].
Proof.
  destruct (planner_returns_oracle_stops
              [Examples.order_a; Examples.order_b]
              (Examples.clock_at Examples.nov_5) Examples.reply_b_a _ eq_refl)
    as (r & Hr & _ & Hids & _).
  exists r. split; [exact Hr|]. rewrite Hids. reflexivity.
Defined.

(** C3 as worded fails for a reply of the demanded shape that leaves an
    order out: the planner returns it as it is. *)
Lemma planner_accepts_incomplete_reply :
  ~ Planner.covers_exactly [Examples.order_a; Examples.order_b]
      (Examples.clock_at Examples.nov_5) Examples.reply_without_b.
Proof.
  intros H. destruct H as (r & Hr & Hperm).
  { eexists _, _. split; reflexivity. }
  injection Hr as <-. apply Permutation_length in Hperm. discriminate.
Qed.

(** ** Trip numbers *)
Section TripNumbers.
Import DataService.

Lemma prefix_append (p s : string) : String.prefix p (p +:+ s) = true.
Proof.
  induction p as [|a p IH]; simpl; [by destruct s|].
  destruct (Ascii.ascii_dec a a); [exact IH|done].
Qed.

Lemma padStart_nonempty (s : string) c : Js.padStart s 2 c <> "".
Proof. destruct s as [|a [|b s]]; discriminate. Qed.

Lemma datePrefix_nonempty (d : JsDate) : datePrefix d <> "".
Proof.
  unfold datePrefix.
  pose proof (padStart_nonempty (Js.toString (getMonth d + 1)) "0") as H.
  destruct (Js.padStart (Js.toString (getMonth d + 1)) 2 "0");
    [done|discriminate].
Qed.

(** With a date prefix, the truthiness test on the stored number is
    implied by [startsWith]. *)
Lemma onSameDay_startsWith (d : JsDate) (t : Trip) :
  onSameDay (datePrefix d) t = Js.startsWith (tripNumber t) (datePrefix d).
Proof.
  unfold onSameDay, Js.startsWith, Js.falsy_string.
  pose proof (datePrefix_nonempty d) as Hne.
  destruct (tripNumber t) as [|a n]; [|reflexivity].
  destruct (datePrefix d); [done|reflexivity].
Qed.

Lemma range_check (P : Z -> bool) (lo hi : Z) :
  forallb P (map (fun i => (lo + Z.of_nat i)%Z)
                 (seq 0 (Z.to_nat (hi - lo + 1)))) = true ->
  forall k, (lo <= k <= hi)%Z -> P k = true.
Proof.
  intros Hall k Hk. rewrite forallb_forall in Hall. apply Hall.
  apply in_map_iff. exists (Z.to_nat (k - lo)). split; [lia|].
  apply in_seq. lia.
Qed.

Lemma padStart_two_digits (k : Z) :
  (0 <= k <= 99)%Z -> Js.padStart (Js.toString k) 2 "0" = two_digits k.
Proof.
  intros Hk. apply String.eqb_eq.
  apply (range_check
           (fun k => String.eqb (Js.padStart (Js.toString k) 2 "0")
                                (two_digits k)) 0 99);
    [vm_compute; reflexivity|lia].
Qed.

Lemma slice_last_two_digits (y : Z) :
  (10 <= y <= 9999)%Z ->
  Js.slice_last (Js.toString y) 2 = two_digits (y mod 100).
Proof.
  intros Hy. apply String.eqb_eq.
  apply (range_check
           (fun y => String.eqb (Js.slice_last (Js.toString y) 2)
                                (two_digits (y mod 100))) 10 9999);
    [vm_compute; reflexivity|lia].
Qed.

(** For the dates of the years 10 to 9999 the prefix has the format
    MMDDYY. *)
Lemma datePrefix_MMDDYY (d : JsDate) :
  (0 <= getMonth d <= 11)%Z -> (1 <= getDate d <= 31)%Z ->
  (10 <= getFullYear d <= 9999)%Z ->
  datePrefix d = MMDDYY d.
Proof.
  intros Hm Hd Hy. unfold datePrefix, MMDDYY.
  rewrite !padStart_two_digits, slice_last_two_digits by lia. reflexivity.
Qed.

Variable localDate : Z -> JsDate.

Lemma addTrip_tripNumber (now : Z) (trips : list Trip) (trip : Trip) :
  let prefix := datePrefix (tripDate_of localDate now trip) in
  tripNumber (addTrip localDate now trips trip).1
  = prefix +:+ "-"
      +:+ Js.toString
            (Z.of_nat
               (length
                  (List.filter
                     (fun t => Js.startsWith (tripNumber t) prefix) trips))
             + 1).
Proof.
  intros prefix.
  unfold addTrip. cbn [fst tripNumber with_tripNumber].
  change (tripDate_of localDate now (with_id trip (Js.toString now)))
    with (tripDate_of localDate now trip).
  fold prefix. do 6 f_equal.
  apply List.filter_ext. intros t. apply onSameDay_startsWith.
Qed.

(** C6.  The number of a newly stored trip is its date prefix, a dash, and
    one more than the number of stored trips whose number starts with that
    prefix; the trip is appended to the store.  With three such trips the
    suffix is 4 whatever their own suffixes are: the count alone decides.
    For a date of the years 10 to 9999 the prefix reads MMDDYY. *)
Theorem trip_number_counts_same_prefix (now : Z) (trips : list Trip)
    (trip : Trip) :
  let day := tripDate_of localDate now trip in
  let prefix := datePrefix day in
  let sameDay :=
    List.filter (fun t => Js.startsWith (tripNumber t) prefix) trips in
  let newTrip := (addTrip localDate now trips trip).1 in
  tripNumber newTrip
  = prefix +:+ "-" +:+ Js.toString (Z.of_nat (length sameDay) + 1)
  /\ (addTrip localDate now trips trip).2 = trips ++ [newTrip]
  /\ (length sameDay = 3 -> tripNumber newTrip = prefix +:+ "-4")
  /\ ((0 <= getMonth day <= 11)%Z -> (1 <= getDate day <= 31)%Z ->
      (10 <= getFullYear day <= 9999)%Z ->
      prefix = MMDDYY day).
Proof.
  intros day prefix sameDay newTrip.
  pose proof (addTrip_tripNumber now trips trip) as Hnumber.
  cbv zeta in Hnumber. fold day prefix sameDay newTrip in Hnumber.
  split; [exact Hnumber|]. split; [reflexivity|]. split.
  - intros H3. rewrite Hnumber, H3. reflexivity.
  - apply datePrefix_MMDDYY.
Qed.

(** C10, as the code has it.  The prefix comes from the trip's [startTime]
    when that is a non-zero timestamp, and from the clock at creation when
    the trip has no [startTime] or a [startTime] of 0, which the code's test
    takes for none. *)
Theorem trip_number_prefix_source (now : Z) (trips : list Trip)
    (trip : Trip) :
  let newTrip := (addTrip localDate now trips trip).1 in
  (forall t, startTime trip = Some t -> t <> 0%Z ->
     tripDate_of localDate now trip = localDate t
     /\ Js.startsWith (tripNumber newTrip) (datePrefix (localDate t)) = true)
  /\ (startTime trip = None \/ startTime trip = Some 0%Z ->
      tripDate_of localDate now trip = localDate now
      /\ Js.startsWith (tripNumber newTrip) (datePrefix (localDate now))
         = true).
Proof.
  intros newTrip.
  pose proof (addTrip_tripNumber now trips trip) as Hnumber.
  cbv zeta in Hnumber. fold newTrip in Hnumber.
  assert (Hstarts : Js.startsWith (tripNumber newTrip)
                      (datePrefix (tripDate_of localDate now trip)) = true).
  { rewrite Hnumber. apply prefix_append. }
  split.
  - intros t Ht Hnz.
    assert (Hdate : tripDate_of localDate now trip = localDate t).
    { unfold tripDate_of, scheduled. rewrite Ht.
      destruct (Z.eqb_spec t 0); [contradiction|reflexivity]. }
    rewrite <- Hdate. split; [reflexivity|exact Hstarts].
  - intros Hnone.
    assert (Hdate : tripDate_of localDate now trip = localDate now).
    { unfold tripDate_of, scheduled. by destruct Hnone as [-> | ->]. }
    rewrite <- Hdate. split; [reflexivity|exact Hstarts].
Qed.

End TripNumbers.

Lemma trip_number_counts_same_prefix_witness :
  DataService.tripNumber
    (DataService.addTrip Examples.utcDate Examples.nov_5
       Examples.stored_trips (Examples.approved None)).1
  = "110526-4".
Proof.
  destruct (trip_number_counts_same_prefix Examples.utcDate Examples.nov_5
              Examples.stored_trips (Examples.approved None))
    as (_ & _ & Hfourth & Hformat).
  rewrite Hfourth, Hformat; [reflexivity|vm_compute; split; discriminate..].
Defined.

Lemma trip_number_prefix_source_witness :
  Js.startsWith
    (DataService.tripNumber
       (DataService.addTrip Examples.utcDate Examples.nov_5
          Examples.stored_trips
          (Examples.approved (Some Examples.nov_20))).1)
    "112026" = true.
Proof.
  destruct (trip_number_prefix_source Examples.utcDate Examples.nov_5
              Examples.stored_trips
              (Examples.approved (Some Examples.nov_20)))
    as (Hset & _).
  destruct (Hset Examples.nov_20 eq_refl) as (_ & Hstarts); [discriminate|].
  exact Hstarts.
Defined.

(** C10 as worded fails for a trip scheduled at timestamp 0: it is
    numbered for the day of creation. *)
Lemma epoch_start_numbered_for_today :
  ~ DataService.numbered_by_startTime Examples.utcDate Examples.nov_5
      Examples.stored_trips (Examples.approved (Some 0%Z)).
Proof. vm_compute. discriminate. Qed.

(** ** Stopping the active trip *)
Section StopTrip.
Import DataService TripScreen.

Lemma ticks_while_running (initialSeconds elapsed : Z) (n : nat) :
  fold_left (timer_step initialSeconds) (replicate n Tick)
            (mkTimer elapsed true true)
  = mkTimer (elapsed + Z.of_nat n) true true.
Proof.
  revert elapsed. induction n as [|n IH]; intros elapsed.
  - cbn. f_equal. lia.
  - cbn [replicate fold_left timer_step intervalRef elapsedSeconds isActive].
    rewrite IH. f_equal. lia.
Qed.

(** Ticks move a running timer and leave a timer that was never started
    where it was mounted. *)
Lemma timer_counts_ticks (initialSeconds : Z) (n : nat) :
  timer_run initialSeconds (Start :: replicate n Tick)
  = mkTimer (initialSeconds + Z.of_nat n) true true
  /\ timer_run initialSeconds (replicate n Tick) = mount initialSeconds.
Proof.
  unfold timer_run. split.
  - apply ticks_while_running.
  - induction n as [|n IH]; [reflexivity|exact IH].
Qed.

Lemma dispatch_is_not_provided : Context.destructured_dispatch = None.
Proof. reflexivity. Qed.

(** C7, as the code has it.  The trip screen takes [dispatch] from the
    context value, which has no member of that name.  So stopping changes
    nothing in the store, whatever the trips, the timer and the instant:
    with an active trip the handler ends in a TypeError at its call of
    [dispatch], without one it returns; the active trip is the same trip
    afterwards, still Active, with its end time and total time
    unwritten. *)
Theorem stop_trip_throws_without_dispatch (state : Context.AppState)
    (timer : Timer) (now : Z) :
  let after :=
    handleStopTrip Context.destructured_dispatch state timer now in
  after.1 = state
  /\ after.2 = match activeTrip (Context.trips state) with
               | Some _ => Context.TypeError
               | None => Context.Returned
               end
  /\ activeTrip (Context.trips after.1) = activeTrip (Context.trips state).
Proof.
  unfold handleStopTrip. rewrite dispatch_is_not_provided.
  destruct (activeTrip (Context.trips state)) eqn:Hactive; cbn;
    rewrite ?Hactive; done.
Qed.

(** What the handler builds for [dispatch].  Had the context value the
    provider's [dispatch] as a member, the store would get the active trip
    with status Completed, the current instant as its end time and the
    timer's elapsed seconds as its total time, its start time and its
    stops, with their completion flags and times, as they were. *)
Lemma stop_trip_payload_records_timer (state : Context.AppState)
    (trip : Trip) (timer : Timer) (now : Z) :
  activeTrip (Context.trips state) = Some trip ->
  exists stopped,
    handleStopTrip (Some Context.provider_dispatch) state timer now
    = (Context.mkAppState (update_trip (Context.trips state) stopped)
                          (Context.workOrders state),
       Context.Returned)
    /\ status stopped = Completed
    /\ endTime stopped = Some now
    /\ totalTimeSeconds stopped = elapsedSeconds timer
    /\ stops stopped = stops trip
    /\ startTime stopped = startTime trip
    /\ id stopped = id trip
    /\ In stopped (update_trip (Context.trips state) stopped).
Proof.
  intros Hactive. unfold handleStopTrip. rewrite Hactive.
  eexists. split; [reflexivity|]. repeat split.
  apply find_some in Hactive as [Hin _]. unfold update_trip.
  apply in_map_iff. exists trip. split; [|exact Hin].
  cbn [id]. rewrite String.eqb_refl. reflexivity.
Qed.

End StopTrip.

(** C7 as worded fails for a trip approved with a two-hour estimate,
    started, timed from the start and stopped five seconds later: the
    handler throws and the trip is still Active in the store. *)
Lemma stop_trip_leaves_trip_active :
  ~ TripScreen.stop_records_wall_clock Context.destructured_dispatch
      Examples.active_store Examples.active_trip
      Examples.nov_5 (Examples.nov_5 + 5000)
      (TripScreen.Start :: replicate 5 TripScreen.Tick).
Proof.
  intros H. destruct (H eq_refl eq_refl) as (stopped & Hfind & Hstatus & _).
  vm_compute in Hfind. injection Hfind as <-. discriminate.
Qed.

(** The action the handler builds does not carry the seconds between
    start and stop either: reduced by the provider's [dispatch], it stores
    the estimate plus the five ticks. *)
Lemma stop_trip_total_is_not_wall_clock :
  ~ TripScreen.stop_records_wall_clock (Some Context.provider_dispatch)
      Examples.active_store Examples.active_trip
      Examples.nov_5 (Examples.nov_5 + 5000)
      (TripScreen.Start :: replicate 5 TripScreen.Tick).
Proof.
  intros H.
  destruct (H eq_refl eq_refl) as (stopped & Hfind & _ & _ & Htotal & _).
  vm_compute in Hfind. injection Hfind as <-. vm_compute in Htotal.
  discriminate.
Qed.

(** ** Rates *)
Section Rates.
Import Metrics.
Local Open Scope float_scope.

(** C8.  With zero total minutes the hourly rate is 0, and with zero total
    miles the per-mile rate is 0, whatever the payout (also a payout that is
    not a number); the office screen's hourly rate is guarded the same way
    and its per-mile rate is the constant 2.5.
    With a positive number of hours, and of miles, the rates are the payout
    divided by the hours, and by the miles, and the office screen's hourly
    rate is the revenue divided by the hours; with a number of hours, or of
    miles, that is not positive (zero, negative or not a number) all three
    are 0. *)
Theorem rates_are_zero_guarded :
  (forall payout, perHourRate payout 0 = 0)
  /\ (forall payout, perMileRate payout 0 = 0)
  /\ (forall revenue, kpis_perHourRate revenue 0 = 0)
  /\ kpis_perMileRate = 2.5
  /\ (forall payout totalMinutes,
        (0 <? totalMinutes / 60) = true ->
        perHourRate payout totalMinutes = payout / (totalMinutes / 60))
  /\ (forall payout totalMiles,
        (0 <? totalMiles) = true ->
        perMileRate payout totalMiles = payout / totalMiles)
  /\ (forall revenue totalTimeHours,
        (0 <? totalTimeHours) = true ->
        kpis_perHourRate revenue totalTimeHours = revenue / totalTimeHours)
  /\ (forall payout totalMinutes,
        (0 <? totalMinutes / 60) = false ->
        perHourRate payout totalMinutes = 0)
  /\ (forall payout totalMiles,
        (0 <? totalMiles) = false -> perMileRate payout totalMiles = 0)
  /\ (forall revenue totalTimeHours,
        (0 <? totalTimeHours) = false ->
        kpis_perHourRate revenue totalTimeHours = 0).
Proof.
  repeat split; try reflexivity.
  - intros payout totalMinutes Hpos. unfold perHourRate. cbv zeta.
    rewrite Hpos. reflexivity.
  - intros payout totalMiles Hpos. unfold perMileRate.
    rewrite Hpos. reflexivity.
  - intros revenue totalTimeHours Hpos. unfold kpis_perHourRate.
    rewrite Hpos. reflexivity.
  - intros payout totalMinutes Hnot. unfold perHourRate. cbv zeta.
    rewrite Hnot. reflexivity.
  - intros payout totalMiles Hnot. unfold perMileRate.
    rewrite Hnot. reflexivity.
  - intros revenue totalTimeHours Hnot. unfold kpis_perHourRate.
    rewrite Hnot. reflexivity.
Qed.

End Rates.

Lemma rates_are_zero_guarded_witness :
  Metrics.perHourRate 100 120 = 50%float
  /\ Metrics.perMileRate 100 40 = 2.5%float
  /\ Metrics.kpis_perHourRate 100 2 = 50%float
  /\ Metrics.perHourRate 100 0 = 0%float
  /\ Metrics.perMileRate 100 0 = 0%float
  /\ Metrics.kpis_perHourRate 100 (-2) = 0%float.
Proof.
  destruct rates_are_zero_guarded
    as (Hh0 & Hm0 & _ & _ & Hh & Hm & Hk & _ & _ & Hk0).
  split; [|split; [|split; [|split; [|split]]]].
  - rewrite Hh; reflexivity.
  - rewrite Hm; reflexivity.
  - rewrite Hk; reflexivity.
  - apply Hh0.
  - apply Hm0.
  - rewrite Hk0; reflexivity.
Defined.

(** * Further properties of the modelled code *)

(** ** The requests of a recalculation *)
Section Requests.
Import Directions Types Route Editor EditorOps.

Lemma chunk_loop_length W (l : list string) i :
  length (chunk_loop W l i) = (length l - 1 - i + W) / (W + 1).
Proof.
  remember (length l - 1 - i) as m eqn:Hm. revert i Hm.
  induction m as [m IH] using lt_wf_ind. intros i Hm.
  rewrite chunk_loop_eq.
  destruct (decide (i < length l - 1)) as [Hlt|Hge].
  - cbn [length].
    rewrite (IH (length l - 1 - (i + (W + 1)))) by lia.
    destruct (decide (i + (W + 1) <= length l - 1)) as [Hle|Hgt].
    + replace (m + W) with (length l - 1 - (i + (W + 1)) + W + 1 * (W + 1))
        by lia.
      rewrite Nat.div_add by lia. lia.
    + replace (length l - 1 - (i + (W + 1))) with 0 by lia.
      replace (m + W) with (m - 1 + 1 * (W + 1)) by lia.
      rewrite Nat.div_add by lia.
      rewrite !Nat.div_small by lia. reflexivity.
  - replace m with 0 by lia. rewrite Nat.div_small by lia. reflexivity.
Qed.

Lemma index_present (l : list string) j :
  Forall (fun a => a <> "") l -> j < length l ->
  Js.falsy_string (Js.index l j) = false.
Proof.
  intros Hall Hj. unfold Js.index, Js.falsy_string.
  destruct (lookup_lt_is_Some_2 l j Hj) as [a Ha]. rewrite Ha. cbn.
  apply String.eqb_neq. rewrite Forall_forall in Hall.
  apply Hall. eapply list_elem_of_lookup_2, Ha.
Qed.

Lemma issue_loop_complete W (l : list string) i :
  Forall (fun a => a <> "") l ->
  issue_loop W l i = AllIssued (chunk_loop W l i).
Proof.
  intros Hall.
  remember (length l - 1 - i) as m eqn:Hm. revert i Hm.
  induction m as [m IH] using lt_wf_ind. intros i Hm.
  rewrite issue_loop_eq, chunk_loop_eq.
  destruct (decide (i < length l - 1)) as [Hlt|Hge]; [|reflexivity].
  cbn [chunk_request origin destination].
  rewrite !index_present by (done || lia). cbn [orb].
  rewrite (IH (length l - 1 - (i + (W + 1)))) by lia. reflexivity.
Qed.

(** With a start, an end and an address for every stop, a recalculation
    sets the busy flag, clears the error, sends the chunk requests and
    awaits them; there are (n + 26) / 26 of them for n stops (one per 26
    legs, rounded up); and the map view draws the trip with the same
    requests. *)
Theorem recalculation_requests_every_chunk (t : SuggestedTrip) :
  startLocation t <> "" -> endLocation t <> "" ->
  Forall (fun s => address s <> "") (stops t) ->
  let chunks := chunk_loop MAX_WAYPOINTS_PER_REQUEST (trip_locations t) 0 in
  recalculate_start true t
  = mkStarted ([SetIsRecalculating true; SetRecalculationError None]
                 ++ map RouteCall chunks)
              (Some (mkPending t chunks))
  /\ length chunks = (length (stops t) + 26) / 26
  /\ drawTripRoute t = chunks.
Proof.
  intros Hstart Hend Hstops chunks.
  assert (Hall : Forall (fun a => a <> "") (trip_locations t)).
  { unfold trip_locations, locations_of. constructor; [exact Hstart|].
    apply Forall_app. split; [|by constructor].
    apply List.Forall_map. exact Hstops. }
  split; [|split].
  - unfold recalculate_start. cbn [negb].
    rewrite issue_loop_complete by exact Hall. reflexivity.
  - unfold chunks. rewrite chunk_loop_length, trip_locations_length.
    unfold MAX_WAYPOINTS_PER_REQUEST. f_equal. lia.
  - unfold drawTripRoute, Js.falsy_string.
    apply String.eqb_neq in Hstart, Hend. rewrite Hstart, Hend. reflexivity.
Qed.

End Requests.

Lemma recalculation_requests_every_chunk_witness :
  length
    (Route.chunk_loop Route.MAX_WAYPOINTS_PER_REQUEST
       (Editor.trip_locations
          (Types.with_endLocation Examples.long_trip_without_end "depot B"))
       0) = 2.
Proof.
  destruct (recalculation_requests_every_chunk
              (Types.with_endLocation Examples.long_trip_without_end
                                      "depot B"))
    as (_ & Hcount & _).
  - discriminate.
  - discriminate.
  - apply Forall_forall. intros st Hst Hempty.
    apply list_elem_of_In, in_map_iff in Hst as (k & <- & _). cbn in Hempty.
    discriminate.
  - rewrite Hcount. reflexivity.
Defined.

(** ** The editing session *)
Section SessionFacts.
Import Directions Types Route Editor EditorOps.

Lemma recalculate_finish_flag (t : SuggestedTrip) (responses : list Response)
    (s : EditorState) :
  isRecalculating (apply_effects s (recalculate_finish t responses)) = false
  /\ isAddStopModalOpen (apply_effects s (recalculate_finish t responses))
     = isAddStopModalOpen s.
Proof.
  unfold recalculate_finish.
  destruct (aggregate responses _); split; reflexivity.
Qed.



(** When the responses of one pending recalculation arrive, the busy flag
    is cleared and that recalculation alone leaves the pending ones: with
    others still in flight the editor shows itself idle. *)
Theorem busy_flag_cleared_by_any_response (s : Session) (n : nat)
    (p : Pending) (responses : list Response) :
  pending s !! n = Some p ->
  let s' := step s (Resolved n responses) in
  isRecalculating (ui s') = false
  /\ pending s' = delete n (pending s)
  /\ S (length (pending s')) = length (pending s).
Proof.
  intros Hp. cbn [step]. rewrite Hp. cbn [ui pending].
  split; [apply recalculate_finish_flag|]. split; [reflexivity|].
  rewrite length_delete by (by exists p).
  apply lookup_lt_Some in Hp. lia.
Qed.

(** Committing a location is idempotent: a second commit of the same
    value into the same field changes nothing and starts no
    recalculation. *)
Theorem location_commit_twice (s : Session) (mapsLoaded mapsLoaded' : bool)
    (type : LocationField) (value : string) :
  step (step s (LocationCommitted mapsLoaded type value))
       (LocationCommitted mapsLoaded' type value)
  = step s (LocationCommitted mapsLoaded type value).
Proof.
  destruct s as [u pend].
  set (s1 := step _ (LocationCommitted mapsLoaded type value)).
  assert (Hfield :
    editableTrip (ui s1) = None
    \/ exists t1, editableTrip (ui s1) = Some t1
         /\ match type with
            | StartLocation => startLocation t1
            | EndLocation => endLocation t1
            end = value).
  { subst s1. cbn [step ui]. unfold handleLocationCommit.
    destruct (editableTrip u) as [t|] eqn:Ht; [|by left].
    right.
    destruct (String.eqb _ value) eqn:Hsame.
    - exists t. split; [exact Ht|]. by apply String.eqb_eq.
    - unfold after_start. cbn [ui start_effects].
      eexists. split.
      + change (apply_effects u (SetEditableTrip ?x :: ?es))
          with (apply_effects (apply_effect u (SetEditableTrip x)) es).
        rewrite apply_effects_keeps_trip
          by apply recalculate_start_writes_no_trip.
        reflexivity.
      + by destruct type. }
  cbn [step]. unfold handleLocationCommit.
  destruct Hfield as [Hnone|(t1 & Ht1 & Hvalue)].
  - rewrite Hnone. by destruct s1 as [u1 pend1].
  - rewrite Ht1, Hvalue, String.eqb_refl. by destruct s1 as [u1 pend1].
Qed.

End SessionFacts.

Lemma busy_flag_cleared_by_any_response_witness :
  let s := Editor.run Examples.idle_session
             (Editor.edits_A_B Examples.stops_A Examples.stops_B) in
  length (Editor.pending s) = 2
  /\ Editor.isRecalculating
       (Editor.ui (Editor.step s (Editor.Resolved 1 Examples.responses_B)))
     = false
  /\ length
       (Editor.pending (Editor.step s (Editor.Resolved 1 Examples.responses_B)))
     = 1.
Proof.
  intros s.
  assert (Hp : exists p, Editor.pending s !! 1 = Some p)
    by (eexists; vm_compute; reflexivity).
  destruct Hp as [p Hp].
  destruct (busy_flag_cleared_by_any_response s 1 p Examples.responses_B Hp)
    as (Hflag & _ & Hlen).
  assert (Hs : length (Editor.pending s) = 2) by (vm_compute; reflexivity).
  split; [exact Hs|]. split; [exact Hflag|].
  rewrite Hs in Hlen. apply eq_add_S. exact Hlen.
Defined.

(** ** Editing the stop list *)
Section StopEdits.
Import Directions Types Route Editor EditorOps.

Lemma handleStopsChange_trip mapsLoaded (s : EditorState) (t : SuggestedTrip)
    (newStops : list SuggestedStop) :
  let st := handleStopsChange mapsLoaded (Some t) newStops in
  editableTrip (apply_effects s (start_effects st))
  = Some (with_stops t newStops)
  /\ exists es,
      start_effects st
      = SetEditableTrip (with_stops t newStops)
          :: SetIsRecalculating true :: SetRecalculationError None :: es.
Proof.
  cbn [handleStopsChange start_effects]. split.
  - change (apply_effects s (SetEditableTrip ?x :: ?es))
      with (apply_effects (apply_effect s (SetEditableTrip x)) es).
    rewrite apply_effects_keeps_trip by apply recalculate_start_writes_no_trip.
    reflexivity.
  - unfold recalculate_start. destruct mapsLoaded; cbn [negb].
    + destruct (issue_loop _ _ _); eexists; reflexivity.
    + eexists; reflexivity.
Qed.

Lemma retimed_lookup (ss : list SuggestedStop) (i : string) (newTime : float)
    (k : nat) :
  retimed ss i newTime !! k
  = (fun s => if String.eqb (workOrderId s) i
              then with_serviceTime s newTime else s) <$> ss !! k.
Proof. unfold retimed. apply list_lookup_fmap. Qed.

(** Changing a stop's service time sends no route request and leaves the
    busy flag alone; the stops keep their ids, addresses and order, every
    stop of another id is untouched and every stop of the given id gets
    the new time; service time is re-summed and the total is the old
    travel time plus the new service time, with travel time and miles as
    they were. *)
Theorem service_time_change_is_local (s : EditorState) (t : SuggestedTrip)
    (i : string) (newTime : float) :
  let es := handleServiceTimeChange (Some t) i newTime in
  List.filter is_RouteCall es = []
  /\ isRecalculating (apply_effects s es) = isRecalculating s
  /\ exists t',
      editableTrip (apply_effects s es) = Some t'
      /\ map workOrderId (stops t') = map workOrderId (stops t)
      /\ map address (stops t') = map address (stops t)
      /\ (forall k st, stops t !! k = Some st -> workOrderId st <> i ->
            stops t' !! k = Some st)
      /\ (forall st', st' ∈ stops t' -> workOrderId st' = i ->
            serviceTimeMinutes st' = newTime)
      /\ serviceMinutes t' = sum_serviceMinutes (stops t')
      /\ totalMinutes t' = (travelMinutes t + serviceMinutes t')%float
      /\ travelMinutes t' = travelMinutes t
      /\ totalMiles t' = totalMiles t.
Proof.
  cbn [handleServiceTimeChange]. split; [reflexivity|]. split; [reflexivity|].
  eexists. split; [reflexivity|]. cbn [stops serviceMinutes totalMinutes
                                          travelMinutes totalMiles].
  repeat split.
  - unfold retimed. rewrite List.map_map. apply map_ext. intros a.
    by destruct (String.eqb _ _).
  - unfold retimed. rewrite List.map_map. apply map_ext. intros a.
    by destruct (String.eqb _ _).
  - intros k st Hk Hid. rewrite retimed_lookup, Hk. cbn.
    apply String.eqb_neq in Hid. by rewrite Hid.
  - intros st' Hin Hid. unfold retimed in Hin.
    apply list_elem_of_In, in_map_iff in Hin as (st & <- & _).
    destruct (String.eqb (workOrderId st) i) eqn:Heq; [reflexivity|].
    apply String.eqb_neq in Heq. done.
Qed.

Lemma without_stop_spec (ss : list SuggestedStop) (i : string)
    (x : SuggestedStop) :
  x ∈ without_stop ss i <-> x ∈ ss /\ workOrderId x <> i.
Proof.
  unfold without_stop. rewrite !list_elem_of_In, filter_In.
  rewrite negb_true_iff, String.eqb_neq. reflexivity.
Qed.

Lemma without_stop_sublist (ss : list SuggestedStop) (i : string) :
  sublist (without_stop ss i) ss.
Proof.
  induction ss as [|a ss IH]; [constructor|]. cbn.
  destruct (negb _); by constructor.
Qed.

Lemma without_stop_absent (ss : list SuggestedStop) (i : string) :
  i ∉ map workOrderId ss -> without_stop ss i = ss.
Proof.
  induction ss as [|a ss IH]; [reflexivity|]. cbn. intros Hnot.
  apply not_elem_of_cons in Hnot as [Hne Hnot].
  assert (Heq : String.eqb (workOrderId a) i = false)
    by (apply String.eqb_neq; congruence).
  rewrite Heq. cbn. f_equal. apply IH, Hnot.
Qed.

(** Removing a stop writes the trip without the stops of that id, which
    are all the other stops in their order, and starts a recalculation;
    ids that were pairwise distinct stay so; for an id that is on no stop
    the stop list is the same and the recalculation still starts. *)
Theorem remove_stop_keeps_the_others mapsLoaded (s : EditorState)
    (t : SuggestedTrip) (i : string) :
  let st := handleRemoveStop mapsLoaded (Some t) i in
  exists t' es,
    editableTrip (apply_effects s (start_effects st)) = Some t'
    /\ start_effects st
       = SetEditableTrip t' :: SetIsRecalculating true
           :: SetRecalculationError None :: es
    /\ (i ∉ map workOrderId (stops t'))
    /\ (forall x, x ∈ stops t' <-> x ∈ stops t /\ workOrderId x <> i)
    /\ sublist (stops t') (stops t)
    /\ (NoDup (map workOrderId (stops t)) ->
        NoDup (map workOrderId (stops t')))
    /\ ((i ∉ map workOrderId (stops t)) -> stops t' = stops t)
    /\ startLocation t' = startLocation t
    /\ endLocation t' = endLocation t.
Proof.
  unfold handleRemoveStop.
  destruct (handleStopsChange_trip mapsLoaded s t (without_stop (stops t) i))
    as (Htrip & es & Hes).
  exists (with_stops t (without_stop (stops t) i)), es.
  split; [exact Htrip|]. split; [exact Hes|]. cbn [with_stops stops].
  split; [|split; [|split; [|split; [|split; [|done]]]]].
  - intros Hin. apply list_elem_of_In, in_map_iff in Hin as (x & Hx & Hin).
    apply list_elem_of_In, without_stop_spec in Hin. tauto.
  - apply without_stop_spec.
  - apply without_stop_sublist.
  - intros Hnd.
    pose proof (fmap_sublist workOrderId _ _ (without_stop_sublist (stops t) i))
      as Hsub.
    exact (sublist_NoDup _ _ Hnd Hsub).
  - apply without_stop_absent.
Qed.

(** Dropping a dragged stop onto another position writes a permutation
    of the stops: the dragged stop sits at the drop position and the other
    stops keep their relative order. *)
Theorem drag_moves_one_stop mapsLoaded (s : EditorState) (t : SuggestedTrip)
    (from to : nat) (x : SuggestedStop) :
  stops t !! from = Some x -> to < length (stops t) -> from <> to ->
  exists st t',
    handleDragEnd mapsLoaded (Some t) (Some from) (Some to) = Some st
    /\ editableTrip (apply_effects s (start_effects st)) = Some t'
    /\ stops t' ≡ₚ stops t
    /\ stops t' !! to = Some x
    /\ delete to (stops t') = delete from (stops t).
Proof.
  intros Hfrom Hto Hne.
  unfold handleDragEnd, splice_out. rewrite bool_decide_eq_false_2 by exact Hne.
  rewrite Hfrom.
  set (d := delete from (stops t)).
  assert (Hd : length d = length (stops t) - 1).
  { unfold d. rewrite length_delete by (by exists x). reflexivity. }
  assert (Htake : length (take to d) = to) by (rewrite length_take; lia).
  eexists. exists (with_stops t (splice_in d to x)).
  split; [reflexivity|].
  split; [apply handleStopsChange_trip|]. cbn [with_stops stops].
  unfold splice_in. split; [|split].
  - rewrite <- Permutation_middle, take_drop.
    symmetry. apply delete_Permutation, Hfrom.
  - rewrite <- Htake at 1. apply list_lookup_middle. reflexivity.
  - rewrite <- Htake at 1. rewrite delete_middle, take_drop. reflexivity.
Qed.

End StopEdits.

Lemma drag_moves_one_stop_witness :
  exists t',
    Types.stops t' !! 1 = Examples.stops_B !! 0
    /\ Types.stops t' ≡ₚ Examples.stops_B.
Proof.
  destruct (Examples.stops_B !! 0) as [x|] eqn:Hx; [|discriminate].
  destruct (drag_moves_one_stop true (Editor.ui Examples.idle_session)
              (Types.with_stops Examples.empty_trip Examples.stops_B) 0 1 x)
    as (st & t' & _ & _ & Hperm & Hto & _).
  - exact Hx.
  - cbn. lia.
  - discriminate.
  - exists t'. split; [exact Hto|exact Hperm].
Defined.

(** ** Adding stops from the dialog, and loading a trip *)
Section DialogAndLoad.
Import Directions Types Route Editor EditorOps.
Variables (workOrders : list WorkOrder) (workOrderTypes : list WorkOrderType).

Lemma getOrder_Some (i : string) (o : WorkOrder) :
  getOrder workOrders i = Some o -> o ∈ workOrders /\ wo_id o = i.
Proof.
  unfold getOrder. intros Hfind. apply find_some in Hfind as [Hin Heq].
  split; [by apply list_elem_of_In|by apply String.eqb_eq].
Qed.

Lemma getOrder_present (o : WorkOrder) :
  o ∈ workOrders -> exists o', getOrder workOrders (wo_id o) = Some o'.
Proof.
  intros Hin. unfold getOrder.
  destruct (find _ workOrders) as [o'|] eqn:Hfind; [by exists o'|].
  apply list_elem_of_In in Hin.
  pose proof (find_none _ _ Hfind o Hin) as Hno. cbn in Hno.
  rewrite String.eqb_refl in Hno. discriminate.
Qed.

Lemma availableOrders_spec (trips : list DataService.Trip)
    (t : SuggestedTrip) (i : string) :
  i ∈ map wo_id (availableOrders workOrders trips t) ->
  (exists o, o ∈ workOrders /\ wo_id o = i /\ wo_status o = Types.Pending)
  /\ (forall trip, trip ∈ trips ->
        i ∉ map DataService.workOrderId (DataService.stops trip))
  /\ (i ∉ map workOrderId (stops t)).
Proof.
  intros Hin. apply list_elem_of_In, in_map_iff in Hin as (o & <- & Hin).
  unfold availableOrders in Hin. apply filter_In in Hin as [Hin Hok].
  apply andb_prop in Hok as [Hok Hcurrent].
  apply andb_prop in Hok as [Hstatus Hplanned].
  apply bool_decide_eq_true_1 in Hcurrent, Hplanned.
  rewrite elem_of_list_to_set in Hcurrent, Hplanned.
  split; [|split].
  - exists o. split; [by apply list_elem_of_In|]. split; [reflexivity|].
    by destruct (wo_status o).
  - intros trip Htrip Hstop. apply Hplanned.
    apply list_elem_of_In, in_flat_map. exists trip.
    split; by apply list_elem_of_In.
  - exact Hcurrent.
Qed.

Lemma filter_all {A} (P : A -> Prop) `{forall x, Decision (P x)} (l : list A) :
  Forall P l -> filter P l = l.
Proof.
  induction 1 as [|x l Hx Hl IH]; [reflexivity|].
  rewrite filter_cons_True by exact Hx. by rewrite IH.
Qed.

(** The add-stop dialog hands over distinct ids of orders it offered,
    which are pending orders on no stored trip and not on the trip being
    edited.  For such a request the duplicate filter of [handleAddStops]
    drops nothing; every added stop carries the non-empty address of the
    first work order of its id; and the ids of the trip's stops stay
    pairwise distinct. *)
Theorem dialog_selection_is_added (trips : list DataService.Trip)
    (t : SuggestedTrip) (workOrderIds : list string) :
  NoDup workOrderIds ->
  (forall i, i ∈ workOrderIds ->
     i ∈ map wo_id (availableOrders workOrders trips t)) ->
  let newStops :=
    List.filter (fun s => negb (Js.falsy_string (address s)))
                (map (new_stop workOrders workOrderTypes) workOrderIds) in
  stops_after_add workOrders workOrderTypes (Some t) workOrderIds
  = stops t ++ newStops
  /\ (forall st, st ∈ newStops ->
        exists o, getOrder workOrders (workOrderId st) = Some o
                  /\ address st = wo_address o /\ address st <> ""
                  /\ forall trip, trip ∈ trips ->
                       workOrderId st
                         ∉ map DataService.workOrderId (DataService.stops trip))
  /\ (NoDup (map workOrderId (stops t)) ->
      NoDup (map workOrderId
               (stops_after_add workOrders workOrderTypes (Some t)
                                workOrderIds))).
Proof.
  intros Hnd Havail newStops.
  assert (Hnew : forall st, st ∈ newStops ->
            workOrderId st ∈ workOrderIds
            /\ st = new_stop workOrders workOrderTypes (workOrderId st)
            /\ address st <> "").
  { intros st Hst. unfold newStops in Hst.
    apply list_elem_of_In, filter_In in Hst as [Hst Haddr].
    apply in_map_iff in Hst as (i & <- & Hi).
    split; [by apply list_elem_of_In|]. split; [reflexivity|].
    intros Hempty. rewrite Hempty in Haddr. discriminate. }
  assert (Hsame : stops_after_add workOrders workOrderTypes (Some t)
                    workOrderIds = stops t ++ newStops).
  { unfold stops_after_add, uniqueNewStops. cbn [current_stops]. f_equal.
    apply filter_all, Forall_forall. intros st Hst.
    destruct (Hnew st Hst) as (Hi & _ & _).
    rewrite elem_of_list_to_set.
    apply (availableOrders_spec trips t), Havail, Hi. }
  split; [exact Hsame|]. split.
  - intros st Hst. destruct (Hnew st Hst) as (Hi & Hbuilt & Haddr).
    destruct (availableOrders_spec trips t _ (Havail _ Hi))
      as ((o & Ho & Hid & _) & Hplanned & _).
    destruct (getOrder_present o Ho) as [o' Ho']. rewrite Hid in Ho'.
    exists o'. split; [exact Ho'|]. split; [|split; [exact Haddr|]].
    + rewrite Hbuilt at 1. unfold new_stop. cbn [address workOrderId].
      rewrite Ho'. reflexivity.
    + exact Hplanned.
  - intros Hold. rewrite Hsame, map_app. apply NoDup_app.
    split; [exact Hold|]. split.
    + intros i Hi Hi'.
      apply list_elem_of_In, in_map_iff in Hi' as (st & <- & Hst).
      apply list_elem_of_In, Hnew in Hst as (Hin & _ & _).
      by apply (availableOrders_spec trips t _ (Havail _ Hin)).
    + assert (Hadded : newStops
                = uniqueNewStops workOrders workOrderTypes
                    (list_to_set (map workOrderId (stops t))) workOrderIds).
      { apply (app_inv_head (stops t)). rewrite <- Hsame. reflexivity. }
      rewrite Hadded. apply added_NoDup, Hnd.
Qed.

(** Loading a candidate trip keeps its stops' ids and addresses in order
    and replaces every stop's service time by the default of the order's
    type, whatever the candidate carried; service time is their sum, travel
    time is the candidate's total less that sum, and the loaded trip is
    the one put on display. *)
Theorem loading_a_candidate_resets_service_times mapsLoaded
    (s : EditorState) (suggested : SuggestedTrip) :
  let t := tripToLoad workOrders workOrderTypes (inr suggested) in
  editableTrip
    (apply_effects s
       (start_effects
          (load workOrders workOrderTypes mapsLoaded (inr suggested))))
  = Some t
  /\ map workOrderId (stops t) = map workOrderId (stops suggested)
  /\ map address (stops t) = map address (stops suggested)
  /\ Forall (fun st => serviceTimeMinutes st
                       = getServiceTime workOrders workOrderTypes
                                        (workOrderId st)) (stops t)
  /\ serviceMinutes t = sum_serviceMinutes (stops t)
  /\ travelMinutes t = (totalMinutes suggested - serviceMinutes t)%float
  /\ totalMinutes t = totalMinutes suggested
  /\ totalMiles t = totalMiles suggested.
Proof.
  cbn [tripToLoad load start_effects stops serviceMinutes travelMinutes
       totalMinutes totalMiles].
  split.
  { change (apply_effects s (SetEditableTrip ?x :: ?es))
      with (apply_effects (apply_effect s (SetEditableTrip x)) es).
    rewrite apply_effects_keeps_trip by apply recalculate_start_writes_no_trip.
    reflexivity. }
  unfold stopsWithServiceTime. rewrite !List.map_map. cbn.
  repeat split.
  apply List.Forall_map, Forall_true. reflexivity.
Qed.

Lemma detailedStops_spec (trip : DataService.Trip) (st : SuggestedStop) :
  st ∈ detailedStops workOrders workOrderTypes trip <->
  exists stop o,
    stop ∈ DataService.stops trip
    /\ getOrder workOrders (DataService.workOrderId stop) = Some o
    /\ wo_address o <> "" /\ wo_address o <> ADDRESS_NOT_FOUND
    /\ st = mkStop (DataService.workOrderId stop) (wo_address o)
              (getServiceTime workOrders workOrderTypes
                              (DataService.workOrderId stop)).
Proof.
  unfold detailedStops. rewrite list_elem_of_In, filter_In, in_map_iff.
  rewrite negb_true_iff, String.eqb_neq. split.
  - intros [(stop & <- & Hstop) Hfound]. cbn [address] in Hfound.
    exists stop. unfold address_or_not_found in *.
    destruct (getOrder workOrders _) as [o|]; [|done].
    exists o. split; [by apply list_elem_of_In|]. split; [reflexivity|].
    unfold Js.falsy_string in *.
    destruct (String.eqb (wo_address o) "") eqn:Hempty; [done|].
    apply String.eqb_neq in Hempty. done.
  - intros (stop & o & Hstop & Ho & Hne & Hnf & ->). cbn [address].
    split; [|exact Hnf].
    exists stop. split; [|by apply list_elem_of_In].
    rewrite Ho. cbn. unfold Js.falsy_string.
    apply String.eqb_neq in Hne. rewrite Hne. reflexivity.
Qed.

Lemma detailedStops_ids (trip : DataService.Trip) :
  sublist (map workOrderId (detailedStops workOrders workOrderTypes trip))
          (map DataService.workOrderId (DataService.stops trip)).
Proof.
  unfold detailedStops.
  induction (DataService.stops trip) as [|stop ss IH]; [constructor|].
  cbn [map List.filter]. destruct (negb _); cbn [map workOrderId];
    by constructor.
Qed.

(** Loading a persisted trip keeps, in order, exactly the stops whose
    work order is found with an address that is neither empty nor the
    text Address not found; the other stops are dropped from the trip on
    display.  Each kept stop carries its order's address and the default
    service time of the order's type.  The stored mileage and payout are
    not loaded: both start at 0. *)
Theorem loading_a_stored_trip_drops_unresolved_stops mapsLoaded
    (s : EditorState) (trip : DataService.Trip) :
  let t := tripToLoad workOrders workOrderTypes (inl trip) in
  editableTrip
    (apply_effects s
       (start_effects (load workOrders workOrderTypes mapsLoaded (inl trip))))
  = Some t
  /\ sublist (map workOrderId (stops t))
             (map DataService.workOrderId (DataService.stops trip))
  /\ (forall st, st ∈ stops t <->
        exists stop o,
          stop ∈ DataService.stops trip
          /\ getOrder workOrders (DataService.workOrderId stop) = Some o
          /\ wo_address o <> "" /\ wo_address o <> ADDRESS_NOT_FOUND
          /\ st = mkStop (DataService.workOrderId stop) (wo_address o)
                    (getServiceTime workOrders workOrderTypes
                                    (DataService.workOrderId stop)))
  /\ serviceMinutes t = sum_serviceMinutes (stops t)
  /\ totalMiles t = 0%float /\ estimatedPayout t = 0%float
  /\ startLocation t = DataService.startLocation trip
  /\ endLocation t = DataService.endLocation trip.
Proof.
  cbn [tripToLoad load start_effects stops serviceMinutes totalMiles
       estimatedPayout startLocation endLocation].
  split.
  { change (apply_effects s (SetEditableTrip ?x :: ?es))
      with (apply_effects (apply_effect s (SetEditableTrip x)) es).
    rewrite apply_effects_keeps_trip by apply recalculate_start_writes_no_trip.
    reflexivity. }
  split; [apply detailedStops_ids|]. split; [apply detailedStops_spec|].
  repeat split.
Qed.

End DialogAndLoad.

Lemma dialog_selection_is_added_witness :
  map Types.workOrderId
      (Editor.stops_after_add [Examples.order_a; Examples.order_b] []
         (Some Examples.empty_trip) ["b"; "a"])
  = ["b"; "a"].
Proof.
  destruct (dialog_selection_is_added [Examples.order_a; Examples.order_b] []
              [] Examples.empty_trip ["b"; "a"]) as (Hstops & _ & _).
  - compute_done.
  - intros i Hi.
    assert (Hoffered :
      map Types.wo_id
          (EditorOps.availableOrders [Examples.order_a; Examples.order_b] []
             Examples.empty_trip) = ["a"; "b"])
      by (vm_compute; reflexivity).
    rewrite Hoffered. revert Hi. rewrite !elem_of_cons, elem_of_nil. tauto.
  - rewrite Hstops. vm_compute. reflexivity.
Defined.

(** ** The planner's prompt and the ids of its suggestions *)
Section PromptFacts.
Import Prompt.

Lemma sanitize_cons (a : ascii) (rest : string) :
  sanitizeForPrompt (String a rest)
  = (if Ascii.eqb a BACKSLASH then String BACKSLASH (String BACKSLASH "")
     else if Ascii.eqb a QUOTE then String BACKSLASH (String QUOTE "")
     else if Ascii.eqb a NEWLINE then " "
     else String a "") +:+ sanitizeForPrompt rest.
Proof.
  assert (Hbody : forall s,
    sanitizeForPrompt s
    = replace_all NEWLINE " "
        (replace_all QUOTE (String BACKSLASH (String QUOTE ""))
           (replace_all BACKSLASH (String BACKSLASH (String BACKSLASH "")) s)))
    by (intros [|c s]; reflexivity).
  rewrite !Hbody. cbn [replace_all].
  destruct (Ascii.eqb a BACKSLASH) eqn:Hb; [reflexivity|].
  cbn [replace_all].
  destruct (Ascii.eqb a QUOTE) eqn:Hq; [reflexivity|].
  cbn [replace_all].
  destruct (Ascii.eqb a NEWLINE) eqn:Hn; reflexivity.
Qed.

(** Sanitised text is well escaped: every backslash of the input is
    doubled, every double quote is preceded by a backslash that escapes it,
    and no double quote stands unescaped; it holds no line feed (character
    10); reading its escapes back (a backslash makes the next character
    stand for itself) gives the original text with each line feed replaced
    by a space.  Only the line feed is replaced: any character other than
    backslash, double quote, line feed and space, a carriage return
    included, occurs in the output exactly if it occurs in the input. *)
Theorem sanitized_text_reads_back (str : string) :
  well_escaped (sanitizeForPrompt str) = true
  /\ ~ In NEWLINE (list_ascii_of_string (sanitizeForPrompt str))
  /\ unescape (sanitizeForPrompt str) = replace_all NEWLINE " " str
  /\ (forall c : ascii,
        c <> BACKSLASH -> c <> QUOTE -> c <> NEWLINE -> c <> " "%char ->
        In c (list_ascii_of_string (sanitizeForPrompt str))
        <-> In c (list_ascii_of_string str)).
Proof.
  induction str as [|a rest (IHok & IHnl & IHback & IHkeep)];
    [split_and!; try done; intros []|].
  rewrite sanitize_cons. cbn [replace_all].
  destruct (Ascii.eqb a BACKSLASH) eqn:Hb.
  { apply Ascii.eqb_eq in Hb as ->.
    change (Ascii.eqb BACKSLASH NEWLINE) with false.
    change (String BACKSLASH (String BACKSLASH "") +:+ ?x)
      with (String BACKSLASH (String BACKSLASH x)).
    cbn [unescape well_escaped list_ascii_of_string].
    rewrite Ascii.eqb_refl, IHback, IHok. split_and!; try reflexivity.
    - intros [H|[H|H]]; [discriminate..|exact (IHnl H)].
    - intros c Hc1 Hc2 Hc3 Hc4. specialize (IHkeep c Hc1 Hc2 Hc3 Hc4).
      cbn [In]. intuition congruence. }
  destruct (Ascii.eqb a QUOTE) eqn:Hq.
  { apply Ascii.eqb_eq in Hq as ->.
    change (Ascii.eqb QUOTE NEWLINE) with false.
    change (String BACKSLASH (String QUOTE "") +:+ ?x)
      with (String BACKSLASH (String QUOTE x)).
    cbn [unescape well_escaped list_ascii_of_string].
    rewrite !Ascii.eqb_refl, IHback, IHok.
    change (Ascii.eqb QUOTE BACKSLASH) with false.
    split_and!; try reflexivity.
    - intros [H|[H|H]]; [discriminate..|exact (IHnl H)].
    - intros c Hc1 Hc2 Hc3 Hc4. specialize (IHkeep c Hc1 Hc2 Hc3 Hc4).
      cbn [In]. intuition congruence. }
  destruct (Ascii.eqb a NEWLINE) eqn:Hn.
  { apply Ascii.eqb_eq in Hn as ->.
    change (" " +:+ ?x) with (String " " x).
    cbn [unescape well_escaped list_ascii_of_string].
    change (Ascii.eqb " " BACKSLASH) with false.
    change (Ascii.eqb " " QUOTE) with false.
    change (Ascii.eqb " " NEWLINE) with false. cbn [negb andb].
    rewrite IHback, IHok. split_and!; try reflexivity.
    - intros [H|H]; [discriminate|exact (IHnl H)].
    - intros c Hc1 Hc2 Hc3 Hc4. specialize (IHkeep c Hc1 Hc2 Hc3 Hc4).
      cbn [In]. intuition congruence. }
  change (String a "" +:+ ?x) with (String a x).
  cbn [unescape well_escaped list_ascii_of_string].
  rewrite Hb, Hq, Hn, IHback, IHok. split_and!; try reflexivity.
  - intros [H|H]; [|exact (IHnl H)].
    apply Ascii.eqb_neq in Hn. congruence.
  - intros c Hc1 Hc2 Hc3 Hc4. specialize (IHkeep c Hc1 Hc2 Hc3 Hc4).
    cbn [In]. intuition congruence.
Qed.

(** A carriage return is not a line feed: it stays in the text. *)
Lemma carriage_return_survives :
  sanitizeForPrompt (String "S" (String "013" (String "010" "A")))
  = String "S" (String "013" (String " " "A")).
Proof. reflexivity. Qed.

End PromptFacts.

Section SuggestionIds.
Import Prompt Planner.




Lemma toString_inj (z z' : Z) : Js.toString z = Js.toString z' -> z = z'.
Proof.
  unfold Js.toString. intros Heq.
  assert (Hok : forall n, Z.to_int n <> Decimal.Pos Decimal.Nil
                          /\ Z.to_int n <> Decimal.Neg Decimal.Nil).
  { intros [|q|q]; cbn; split; try discriminate;
      intros [= H]; by apply (Unsigned.to_uint_nonnil q). }
  apply DecimalZ.to_int_inj.
  destruct (Hok z) as [Hp Hn], (Hok z') as [Hp' Hn'].
  pose proof (NilZero.isi _ Hp Hn) as H1.
  pose proof (NilZero.isi _ Hp' Hn') as H2.
  rewrite Heq, H2 in H1. by injection H1.
Qed.




End SuggestionIds.


(** ** The stored trips *)
Section StoredTrips.
Import DataService Store.
Variable localDate : Z -> JsDate.

Lemma addTrip_id (now : Z) (trips : list Trip) (trip : Trip) :
  id (addTrip localDate now trips trip).1 = Js.toString now
  /\ (addTrip localDate now trips trip).2
     = trips ++ [(addTrip localDate now trips trip).1].
Proof. split; reflexivity. Qed.

Lemma update_trip_ids (trips : list Trip) (payload : Trip) :
  map id (update_trip trips payload) = map id trips.
Proof.
  unfold update_trip. rewrite List.map_map. apply map_ext. intros t.
  destruct (String.eqb (id t) (id payload)) eqn:Heq; [|reflexivity].
  symmetry. by apply String.eqb_eq.
Qed.

Lemma deleteTrip_sublist (trips : list Trip) (i : string) :
  sublist (deleteTrip trips i) trips.
Proof.
  induction trips as [|t trips IH]; [constructor|]. cbn.
  destruct (negb _); by constructor.
Qed.

Lemma deleteTrip_absent (trips : list Trip) (i : string) :
  i ∉ map id trips -> deleteTrip trips i = trips.
Proof.
  induction trips as [|t trips IH]; [reflexivity|]. cbn. intros Hnot.
  apply not_elem_of_cons in Hnot as [Hne Hnot].
  assert (Heq : String.eqb (id t) i = false)
    by (apply String.eqb_neq; congruence).
  rewrite Heq. cbn. f_equal. apply IH, Hnot.
Qed.

Lemma deleteTrip_app (l k : list Trip) (i : string) :
  deleteTrip (l ++ k) i = deleteTrip l i ++ deleteTrip k i.
Proof. apply List.filter_app. Qed.

(** A stored trip's id is the millisecond at which it was stored.  With
    ids pairwise distinct beforehand, they are so after an update and
    after a delete; after storing a trip they are so exactly when no
    stored trip has that millisecond as its id, and two trips stored at
    the same millisecond get the same id. *)
Theorem trip_ids_stay_distinct (now now' : Z) (trips : list Trip)
    (trip trip' payload : Trip) (i : string) :
  NoDup (map id trips) ->
  NoDup (map id (update_trip trips payload))
  /\ NoDup (map id (deleteTrip trips i))
  /\ (NoDup (map id (addTrip localDate now trips trip).2)
      <-> Js.toString now ∉ map id trips)
  /\ (id (addTrip localDate now trips trip).1
      = id (addTrip localDate now'
              (addTrip localDate now trips trip).2 trip').1
      <-> now = now').
Proof.
  intros Hnd. split; [by rewrite update_trip_ids|]. split; [|split].
  - pose proof (fmap_sublist id _ _ (deleteTrip_sublist trips i)) as Hsub.
    exact (sublist_NoDup _ _ Hnd Hsub).
  - destruct (addTrip_id now trips trip) as [Hid ->].
    rewrite map_app. cbn [map]. rewrite Hid.
    rewrite NoDup_app. split.
    + intros (_ & Hdisj & _) Hin. apply (Hdisj _ Hin). by left.
    + intros Hfresh. split; [exact Hnd|]. split.
      * intros x Hx Hx'. apply list_elem_of_singleton in Hx'. by subst.
      * apply NoDup_singleton.
  - cbn [addTrip fst id with_tripNumber with_id]. split.
    + apply toString_inj.
    + by intros ->.
Qed.

Lemma findTrip_update (trips : list Trip) (payload : Trip) (i : string) :
  findTrip (update_trip trips payload) i
  = if String.eqb i (id payload)
    then (fun _ => payload) <$> findTrip trips i
    else findTrip trips i.
Proof.
  unfold findTrip, update_trip.
  induction trips as [|t trips IH]; [by destruct (String.eqb _ _)|].
  cbn [map find].
  destruct (String.eqb (id t) (id payload)) eqn:Hp.
  - apply String.eqb_eq in Hp. rewrite Hp, (String.eqb_sym (id payload) i).
    destruct (String.eqb i (id payload)) eqn:Hi; [reflexivity|exact IH].
  - destruct (String.eqb (id t) i) eqn:Ht; [|exact IH].
    apply String.eqb_eq in Ht. subst i. by rewrite Hp.
Qed.

(** An update replaces the stored trips of the payload's id and no
    other: afterwards a lookup of that id finds the payload if it found a
    trip before, and nothing otherwise (an update never inserts); lookups
    of other ids and the number of stored trips are unchanged. *)
Theorem update_replaces_by_id (trips : list Trip) (payload : Trip) :
  (is_Some (findTrip trips (id payload)) ->
   findTrip (update_trip trips payload) (id payload) = Some payload)
  /\ (findTrip trips (id payload) = None ->
      update_trip trips payload = trips)
  /\ (forall i, i <> id payload ->
        findTrip (update_trip trips payload) i = findTrip trips i)
  /\ length (update_trip trips payload) = length trips.
Proof.
  split; [|split; [|split]].
  - intros [t Ht]. rewrite findTrip_update, String.eqb_refl, Ht. reflexivity.
  - intros Hnone. unfold update_trip.
    rewrite <- (map_id trips) at 2. apply map_ext_in. intros t Hin.
    pose proof (find_none _ _ Hnone t Hin) as Hne. cbn in Hne.
    by rewrite Hne.
  - intros i Hi. rewrite findTrip_update.
    apply String.eqb_neq in Hi. by rewrite Hi.
  - unfold update_trip. apply length_map.
Qed.

Lemma findTrip_delete (trips : list Trip) (i j : string) :
  findTrip (deleteTrip trips i) j
  = if String.eqb j i then None else findTrip trips j.
Proof.
  unfold findTrip, deleteTrip.
  induction trips as [|t trips IH]; [by destruct (String.eqb _ _)|].
  cbn [List.filter find].
  destruct (String.eqb (id t) i) eqn:Hi; cbn [negb find].
  - rewrite IH. destruct (String.eqb j i) eqn:Hj; [reflexivity|].
    apply String.eqb_eq in Hi. subst i.
    rewrite String.eqb_sym in Hj. by rewrite Hj.
  - destruct (String.eqb (id t) j) eqn:Hj; [|exact IH].
    apply String.eqb_eq in Hj. subst j. by rewrite Hi.
Qed.

(** A delete removes every stored trip of the given id and no other,
    keeping the order of the rest; deleting an id that is not stored
    changes nothing; and storing a trip under a fresh id and deleting it
    again gives back the stored trips. *)
Theorem delete_removes_by_id (trips : list Trip) (i : string) :
  findTrip (deleteTrip trips i) i = None
  /\ (forall j, j <> i ->
        findTrip (deleteTrip trips i) j = findTrip trips j)
  /\ sublist (deleteTrip trips i) trips
  /\ ((i ∉ map id trips) -> deleteTrip trips i = trips)
  /\ forall now trip,
       (Js.toString now ∉ map id trips) ->
       deleteTrip (addTrip localDate now trips trip).2 (Js.toString now)
       = trips.
Proof.
  split; [|split; [|split; [|split]]].
  - rewrite findTrip_delete, String.eqb_refl. reflexivity.
  - intros j Hj. rewrite findTrip_delete.
    apply String.eqb_neq in Hj. by rewrite Hj.
  - apply deleteTrip_sublist.
  - apply deleteTrip_absent.
  - intros now trip Hfresh.
    destruct (addTrip_id now trips trip) as [Hid ->].
    rewrite deleteTrip_app, deleteTrip_absent by exact Hfresh.
    cbn [deleteTrip List.filter]. rewrite Hid, String.eqb_refl. cbn.
    apply app_nil_r.
Qed.

Lemma same_prefix_count (prefix : string) (trips : list Trip) (t : Trip) :
  Js.startsWith (tripNumber t) prefix = true ->
  length (List.filter (fun u => Js.startsWith (tripNumber u) prefix)
                      (trips ++ [t]))
  = S (length (List.filter (fun u => Js.startsWith (tripNumber u) prefix)
                           trips)).
Proof.
  intros Ht. rewrite List.filter_app, length_app. cbn [List.filter].
  rewrite Ht. cbn. lia.
Qed.

Lemma addTrip_startsWith (now : Z) (trips : list Trip) (trip : Trip) :
  Js.startsWith (tripNumber (addTrip localDate now trips trip).1)
                (datePrefix (tripDate_of localDate now trip)) = true.
Proof. rewrite addTrip_tripNumber. apply prefix_append. Qed.

Lemma append_inv_head (p x y : string) : p +:+ x = p +:+ y -> x = y.
Proof.
  induction p as [|a p IH]; [done|]. intros Heq.
  change (String a (p +:+ x) = String a (p +:+ y)) in Heq.
  injection Heq as Heq. by apply IH.
Qed.

(** Two trips stored one after the other for the same day get
    consecutive suffixes after the day's prefix, so different trip
    numbers. *)
Theorem same_day_trips_numbered_consecutively (now now' : Z)
    (trips : list Trip) (trip trip' : Trip) :
  let prefix := datePrefix (tripDate_of localDate now trip) in
  datePrefix (tripDate_of localDate now' trip') = prefix ->
  let n := length (List.filter
                     (fun t => Js.startsWith (tripNumber t) prefix) trips) in
  let first := addTrip localDate now trips trip in
  let second := addTrip localDate now' first.2 trip' in
  tripNumber first.1 = prefix +:+ "-" +:+ Js.toString (Z.of_nat n + 1)
  /\ tripNumber second.1 = prefix +:+ "-" +:+ Js.toString (Z.of_nat n + 2)
  /\ tripNumber first.1 <> tripNumber second.1.
Proof.
  intros prefix Hsame n first second.
  assert (Hfirst : tripNumber first.1
                   = prefix +:+ "-" +:+ Js.toString (Z.of_nat n + 1))
    by apply addTrip_tripNumber.
  assert (Hsecond : tripNumber second.1
                    = prefix +:+ "-" +:+ Js.toString (Z.of_nat n + 2)).
  { unfold second, first. rewrite addTrip_tripNumber, Hsame.
    destruct (addTrip_id now trips trip) as [_ ->].
    rewrite same_prefix_count by apply addTrip_startsWith.
    do 3 f_equal. unfold n. lia. }
  split; [exact Hfirst|]. split; [exact Hsecond|].
  rewrite Hfirst, Hsecond. intros Heq.
  apply append_inv_head in Heq.
  change ("-" +:+ ?x) with (String "-" x) in Heq. injection Heq as Heq.
  apply toString_inj in Heq. lia.
Qed.

(** Trip numbers are not unique.  Store two trips for a day, delete the
    first and store a third for the same day: the third gets the number
    the second already has, and both are in the store. *)
Theorem trip_number_reused_after_delete (now1 now2 now3 : Z)
    (trips : list Trip) (a b c : Trip) :
  let prefix := datePrefix (tripDate_of localDate now1 a) in
  datePrefix (tripDate_of localDate now2 b) = prefix ->
  datePrefix (tripDate_of localDate now3 c) = prefix ->
  Js.toString now1 ∉ map id trips ->
  now1 <> now2 ->
  let first := addTrip localDate now1 trips a in
  let second := addTrip localDate now2 first.2 b in
  let third :=
    addTrip localDate now3 (deleteTrip second.2 (Js.toString now1)) c in
  tripNumber third.1 = tripNumber second.1
  /\ second.1 ∈ third.2 /\ third.1 ∈ third.2.
Proof.
  intros prefix Hb Hc Hfresh Hne first second third.
  assert (Hleft : deleteTrip second.2 (Js.toString now1)
                  = trips ++ [second.1]).
  { unfold second, first.
    destruct (addTrip_id now2 (addTrip localDate now1 trips a).2 b)
      as [Hid2 ->].
    destruct (addTrip_id now1 trips a) as [Hid1 Hstore].
    rewrite Hstore at 1.
    rewrite !deleteTrip_app, deleteTrip_absent by exact Hfresh.
    cbn [deleteTrip List.filter]. rewrite Hid1, Hid2, String.eqb_refl.
    assert (Hdiff : String.eqb (Js.toString now2) (Js.toString now1) = false).
    { apply String.eqb_neq. intros Heq. apply toString_inj in Heq. done. }
    rewrite Hdiff. cbn [negb]. by rewrite app_nil_r. }
  split; [|split].
  - unfold third. rewrite Hleft, addTrip_tripNumber, Hc.
    rewrite same_prefix_count
      by (unfold second; rewrite <- Hb; apply addTrip_startsWith).
    unfold second, first. rewrite addTrip_tripNumber, Hb.
    destruct (addTrip_id now1 trips a) as [_ ->].
    rewrite same_prefix_count by apply addTrip_startsWith.
    reflexivity.
  - unfold third.
    rewrite (proj2 (addTrip_id now3 (deleteTrip second.2 (Js.toString now1)) c)).
    rewrite Hleft.
    apply elem_of_app. left. apply elem_of_app. right. by left.
  - unfold third.
    rewrite (proj2 (addTrip_id now3 (deleteTrip second.2 (Js.toString now1)) c)).
    apply elem_of_app. right. by left.
Qed.

End StoredTrips.

Section Companies.
Import Store.

(** Deleting a company removes the companies of that id and the import
    profiles that belong to it, and nothing else; if every import profile
    belonged to a stored company before, that is still so afterwards. *)
Theorem company_delete_cascades (companies : list Company)
    (importProfiles : list ImportProfile) (i : string) :
  let after := deleteCompany companies importProfiles i in
  (forall c, c ∈ after.1 <-> c ∈ companies /\ c_id c <> i)
  /\ (forall p, p ∈ after.2 <-> p ∈ importProfiles /\ companyId p <> i)
  /\ ((forall p, p ∈ importProfiles -> companyId p ∈ map c_id companies) ->
      forall p, p ∈ after.2 -> companyId p ∈ map c_id after.1).
Proof.
  cbn [deleteCompany fst snd].
  assert (Hc : forall c,
    c ∈ List.filter (fun c => negb (String.eqb (c_id c) i)) companies
    <-> c ∈ companies /\ c_id c <> i).
  { intros c. rewrite !list_elem_of_In, filter_In, negb_true_iff.
    by rewrite String.eqb_neq. }
  assert (Hp : forall p,
    p ∈ List.filter (fun p => negb (String.eqb (companyId p) i)) importProfiles
    <-> p ∈ importProfiles /\ companyId p <> i).
  { intros p. rewrite !list_elem_of_In, filter_In, negb_true_iff.
    by rewrite String.eqb_neq. }
  split; [exact Hc|]. split; [exact Hp|].
  intros Hrefs p Hin. apply Hp in Hin as [Hin Hne].
  specialize (Hrefs p Hin).
  apply list_elem_of_In, in_map_iff in Hrefs as (c & Hid & Hcin).
  apply list_elem_of_In, in_map_iff. exists c. split; [exact Hid|].
  apply list_elem_of_In, Hc. split; [by apply list_elem_of_In|congruence].
Qed.

End Companies.

Lemma trip_ids_stay_distinct_witness :
  let stored :=
    (DataService.addTrip Examples.utcDate Examples.nov_5 []
       (Examples.approved None)).2 in
  NoDup (map DataService.id stored)
  /\ ~ NoDup (map DataService.id
                (DataService.addTrip Examples.utcDate Examples.nov_5 stored
                   (Examples.approved None)).2)
  /\ NoDup (map DataService.id
              (DataService.addTrip Examples.utcDate Examples.nov_20 stored
                 (Examples.approved None)).2).
Proof.
  intros stored.
  assert (Hstored : NoDup (map DataService.id stored)) by compute_done.
  split; [exact Hstored|]. split.
  - destruct (trip_ids_stay_distinct Examples.utcDate Examples.nov_5
                Examples.nov_5 stored (Examples.approved None)
                (Examples.approved None) (Examples.approved None) ""
                Hstored) as (_ & _ & Hadd & _).
    intros Hnd. apply Hadd in Hnd. apply Hnd. vm_compute. by left.
  - destruct (trip_ids_stay_distinct Examples.utcDate Examples.nov_20
                Examples.nov_20 stored (Examples.approved None)
                (Examples.approved None) (Examples.approved None) ""
                Hstored) as (_ & _ & Hadd & _).
    apply Hadd. vm_compute. intros Hin.
    apply elem_of_cons in Hin as [Heq|Hin]; [discriminate|].
    by apply elem_of_nil in Hin.
Defined.

Lemma same_day_trips_numbered_consecutively_witness :
  let first := DataService.addTrip Examples.utcDate Examples.nov_5
                 Examples.stored_trips (Examples.approved None) in
  let second := DataService.addTrip Examples.utcDate (Examples.nov_5 + 1)
                  first.2 (Examples.approved None) in
  DataService.tripNumber first.1 = "110526-4"
  /\ DataService.tripNumber second.1 = "110526-5".
Proof.
  destruct (same_day_trips_numbered_consecutively Examples.utcDate
              Examples.nov_5 (Examples.nov_5 + 1) Examples.stored_trips
              (Examples.approved None) (Examples.approved None))
    as (Hfirst & Hsecond & _).
  - vm_compute. reflexivity.
  - cbv zeta. rewrite Hfirst, Hsecond. split; vm_compute; reflexivity.
Defined.

Lemma trip_number_reused_after_delete_witness :
  let first := DataService.addTrip Examples.utcDate Examples.nov_5 []
                 (Examples.approved None) in
  let second := DataService.addTrip Examples.utcDate (Examples.nov_5 + 1)
                  first.2 (Examples.approved None) in
  let third :=
    DataService.addTrip Examples.utcDate (Examples.nov_5 + 2)
      (Store.deleteTrip second.2 (Js.toString Examples.nov_5))
      (Examples.approved None) in
  DataService.tripNumber third.1 = DataService.tripNumber second.1
  /\ DataService.tripNumber second.1 = "110526-2".
Proof.
  destruct (trip_number_reused_after_delete Examples.utcDate
              Examples.nov_5 (Examples.nov_5 + 1) (Examples.nov_5 + 2) []
              (Examples.approved None) (Examples.approved None)
              (Examples.approved None)) as (Hsame & _ & _).
  - vm_compute. reflexivity.
  - vm_compute. reflexivity.
  - apply not_elem_of_nil.
  - discriminate.
  - cbv zeta. split; [exact Hsame|]. vm_compute. reflexivity.
Defined.

(** ** The timer, starting a trip and completing a stop *)
Section LifecycleFacts.
Import DataService TripScreen Store Lifecycle.

Lemma timer_invariant (initialSeconds : Z) (events : list TimerEvent)
    (t : Timer) (k : Z) :
  (isActive t = intervalRef t
   /\ (isActive t = false -> elapsedSeconds t = initialSeconds)
   /\ initialSeconds <= elapsedSeconds t <= initialSeconds + k)%Z ->
  let t' := fold_left (timer_step initialSeconds) events t in
  (isActive t' = intervalRef t'
   /\ (isActive t' = false -> elapsedSeconds t' = initialSeconds)
   /\ initialSeconds <= elapsedSeconds t'
      <= initialSeconds + (k + ticks events))%Z.
Proof.
  revert t k. unfold ticks.
  induction events as [|e events IH]; intros t k (Href & Hidle & Hrange).
  - cbn. repeat split; try tauto; lia.
  - cbn [fold_left].
    destruct t as [el act ref]. cbn in Href, Hidle, Hrange. subst ref.
    destruct e; cbn [timer_step isActive intervalRef elapsedSeconds
                     List.filter length].
    + specialize (IH (if act then mkTimer el act act else mkTimer el true true)
                     k).
      cbn zeta in IH.
      destruct IH as (H1 & H2 & H3); [destruct act; cbn; split_and!;
                                      try done; lia|].
      split_and!; try done; lia.
    + specialize (IH (if act && act then mkTimer initialSeconds false false
                      else mkTimer el act act) k).
      cbn zeta in IH.
      destruct IH as (H1 & H2 & H3); [destruct act; cbn; split_and!;
                                      try done; try lia; auto|].
      split_and!; try done; lia.
    + specialize (IH (if act then mkTimer (el + 1) act act
                      else mkTimer el act act) (k + 1)%Z).
      cbn zeta in IH.
      destruct IH as (H1 & H2 & H3); [destruct act; cbn; split_and!;
                                      try done; try lia; auto|].
      split_and!; try done; lia.
Qed.

(** Whatever is clicked and however often the interval fires, the timer
    is active exactly while an interval is installed; a timer that is not
    active shows the seconds it was mounted with, so a pause discards what
    was counted since the start; and the seconds shown lie between the
    mounted seconds and those plus the number of times the interval
    fired. *)
Theorem paused_timer_shows_initial_seconds (initialSeconds : Z)
    (events : list TimerEvent) :
  let t := timer_run initialSeconds events in
  (isActive t = intervalRef t
   /\ (isActive t = false -> elapsedSeconds t = initialSeconds)
   /\ initialSeconds <= elapsedSeconds t <= initialSeconds + ticks events)%Z.
Proof.
  pose proof (timer_invariant initialSeconds events (mount initialSeconds) 0)
    as H.
  cbn zeta in H. apply H. cbn. split_and!; try done; lia.
Qed.

(** For less than a hundred hours the timer's display is hours, minutes
    and seconds with two digits each, separated by colons. *)
Theorem timer_display_is_HH_MM_SS (totalSeconds : Z) :
  (0 <= totalSeconds < 360000)%Z ->
  formatTime totalSeconds
  = two_digits (totalSeconds / 3600) +:+ ":"
      +:+ two_digits (totalSeconds mod 3600 / 60) +:+ ":"
      +:+ two_digits (totalSeconds mod 60).
Proof.
  intros Hrange. unfold formatTime.
  rewrite !Z.rem_mod_nonneg by lia.
  pose proof (Z.mod_pos_bound totalSeconds 3600 ltac:(lia)) as Hm.
  pose proof (Z.mod_pos_bound totalSeconds 60 ltac:(lia)) as Hs.
  rewrite !padStart_two_digits; [reflexivity|lia| |].
  - split; [apply Z.div_pos; lia|].
    apply Z.lt_succ_r, Z.div_lt_upper_bound; lia.
  - split; [apply Z.div_pos; lia|].
    apply Z.lt_succ_r, Z.div_lt_upper_bound; lia.
Qed.

Lemma update_work_order_lookup (workOrders : list Types.WorkOrder)
    (payload : Types.WorkOrder) (k : nat) :
  update_work_order workOrders payload !! k
  = (fun wo => if String.eqb (Types.wo_id wo) (Types.wo_id payload)
               then payload else wo) <$> workOrders !! k.
Proof. unfold update_work_order. apply list_lookup_fmap. Qed.

Lemma update_work_order_ids (workOrders : list Types.WorkOrder)
    (payload : Types.WorkOrder) :
  map Types.wo_id (update_work_order workOrders payload)
  = map Types.wo_id workOrders.
Proof.
  unfold update_work_order. rewrite List.map_map. apply map_ext. intros wo.
  destruct (String.eqb _ _) eqn:Heq; [|reflexivity].
  symmetry. by apply String.eqb_eq.
Qed.

(** The work orders after the [updateWorkOrder] calls of
    [handleStartTrip] for the stops [ss], starting from [current]. *)
Lemma activated_orders (workOrders : list Types.WorkOrder)
    (ss : list TripStop) (current : list Types.WorkOrder) :
  let after :=
    fold_left
      (fun current stop =>
         match Editor.getOrder workOrders (workOrderId stop) with
         | Some order =>
             update_work_order current
               (with_status order Types.Active (Types.completedDate order))
         | None => current
         end) ss current in
  map Types.wo_id after = map Types.wo_id current
  /\ (forall k c, current !! k = Some c ->
        Types.wo_id c ∉ map workOrderId ss -> after !! k = Some c)
  /\ (forall k c o, current !! k = Some c ->
        Types.wo_id c ∈ map workOrderId ss ->
        Editor.getOrder workOrders (Types.wo_id c) = Some o ->
        after !! k
        = Some (with_status o Types.Active (Types.completedDate o))).
Proof.
  revert current. induction ss as [|s ss IH]; intros current.
  - cbn. split; [reflexivity|]. split; [done|].
    intros k c o _ Hin. by apply elem_of_nil in Hin.
  - cbn [fold_left map].
    set (next := match Editor.getOrder workOrders (workOrderId s) with
                 | Some order => _
                 | None => current
                 end).
    destruct (IH next) as (Hids & Hkeep & Hset). cbn zeta.
    assert (Hnext_ids : map Types.wo_id next = map Types.wo_id current).
    { unfold next. destruct (Editor.getOrder _ _); [|reflexivity].
      apply update_work_order_ids. }
    assert (Hnext : forall k c, current !! k = Some c ->
              next !! k
              = Some (match Editor.getOrder workOrders (workOrderId s) with
                      | Some order =>
                          if String.eqb (Types.wo_id c) (workOrderId s)
                          then with_status order Types.Active
                                 (Types.completedDate order)
                          else c
                      | None => c
                      end)).
    { intros k c Hk. unfold next.
      destruct (Editor.getOrder workOrders (workOrderId s)) as [order|] eqn:Ho;
        [|exact Hk].
      rewrite update_work_order_lookup, Hk. cbn [fmap option_fmap option_map].
      cbn [with_status Types.wo_id].
      apply getOrder_Some in Ho as [_ ->]. reflexivity. }
    split; [by rewrite Hids|]. split.
    + intros k c Hk Hnot. apply not_elem_of_cons in Hnot as [Hne Hnot].
      apply Hkeep; [|exact Hnot]. rewrite (Hnext k c Hk).
      destruct (Editor.getOrder _ _); [|reflexivity].
      apply String.eqb_neq in Hne. by rewrite Hne.
    + intros k c o Hk Hin Ho. pose proof (Hnext k c Hk) as Hk'.
      destruct (String.eqb (Types.wo_id c) (workOrderId s)) eqn:Hs.
      * apply String.eqb_eq in Hs. rewrite <- Hs, Ho in Hk'.
        set (payload := with_status o Types.Active (Types.completedDate o))
          in *.
        assert (Hpid : Types.wo_id payload = Types.wo_id c).
        { apply getOrder_Some in Ho as [_ Hid]. exact Hid. }
        destruct (decide (Types.wo_id c ∈ map workOrderId ss)) as [Hlater|Hnot].
        -- rewrite (Hset k payload o Hk'); [reflexivity|by rewrite Hpid|].
           by rewrite Hpid.
        -- apply Hkeep; [exact Hk'|by rewrite Hpid].
      * assert (Hsame : next !! k = Some c).
        { rewrite Hk'. by destruct (Editor.getOrder _ _). }
        apply (Hset k c o Hsame); [|exact Ho].
        apply elem_of_cons in Hin as [Heq|Hin]; [|exact Hin].
        apply String.eqb_neq in Hs. done.
Qed.

(** Starting a stored trip makes it Active with the current instant as
    its start time, its stops and recorded time as they were, and leaves
    every other trip alone, an already active one included.  Each work
    order on one of the trip's stops becomes Active, the others are
    untouched, and no order changes its id or position. *)
Theorem starting_a_trip_activates_its_orders (trips : list Trip)
    (workOrders : list Types.WorkOrder) (tripId : string) (now : Z)
    (tripToStart : Trip) :
  findTrip trips tripId = Some tripToStart ->
  let after := handleStartTrip trips workOrders tripId now in
  (exists started,
     findTrip after.1 tripId = Some started
     /\ status started = Active /\ startTime started = Some now
     /\ stops started = stops tripToStart
     /\ totalTimeSeconds started = totalTimeSeconds tripToStart)
  /\ (forall i, i <> tripId -> findTrip after.1 i = findTrip trips i)
  /\ map Types.wo_id after.2 = map Types.wo_id workOrders
  /\ (forall k o, workOrders !! k = Some o ->
        Types.wo_id o ∉ map workOrderId (stops tripToStart) ->
        after.2 !! k = Some o)
  /\ (forall k o, workOrders !! k = Some o ->
        Types.wo_id o ∈ map workOrderId (stops tripToStart) ->
        exists o', after.2 !! k = Some o'
                   /\ Types.wo_status o' = Types.Active
                   /\ Types.wo_id o' = Types.wo_id o).
Proof.
  intros Hfound. unfold handleStartTrip. rewrite Hfound. cbn [fst snd].
  assert (Hid : id tripToStart = tripId).
  { unfold findTrip in Hfound. apply find_some in Hfound as [_ Heq].
    by apply String.eqb_eq. }
  destruct (activated_orders workOrders (stops tripToStart) workOrders)
    as (Hids & Hkeep & Hset).
  split; [|split; [|split; [exact Hids|split; [exact Hkeep|]]]].
  - exists (started_trip tripToStart now).
    rewrite findTrip_update. cbn [started_trip id]. rewrite Hid.
    rewrite String.eqb_refl, Hfound. done.
  - intros i Hi. rewrite findTrip_update. cbn [started_trip id].
    rewrite Hid. apply String.eqb_neq in Hi. by rewrite Hi.
  - intros k o Hk Hin.
    destruct (getOrder_present workOrders o) as [o' Ho'].
    { eapply list_elem_of_lookup_2, Hk. }
    exists (with_status o' Types.Active (Types.completedDate o')).
    split; [by apply (Hset k o o')|]. split; [reflexivity|].
    by apply getOrder_Some in Ho' as [_ Hid'].
Qed.

(** Completing a stop changes nothing in the store.  The stop card takes
    [dispatch] from the context value, which has no member of that name:
    for a stored trip id the handler ends in a TypeError at its first call
    of [dispatch], before the work order's action is built, so no stop is
    marked completed and no work order changes; for an unknown trip id it
    returns. *)
Theorem completing_a_stop_throws_without_dispatch
    (state : Context.AppState) (tripId : string) (stop : TripStop)
    (order : Types.WorkOrder) (today : string) :
  completeStop Context.destructured_dispatch state tripId stop order today
  = (state,
     match findTrip (Context.trips state) tripId with
     | Some _ => Context.TypeError
     | None => Context.Returned
     end).
Proof.
  unfold completeStop. rewrite dispatch_is_not_provided.
  destruct (findTrip (Context.trips state) tripId); reflexivity.
Qed.

(** What the handler builds for [dispatch].  Had the context value the
    provider's [dispatch] as a member, the two actions would only mark the
    trip's stops of the card's work order as completed (no stop
    un-completed, every stop's recorded seconds and the trip's status and
    times as they were) and store the card's order as Completed with the
    completion date. *)
Lemma completing_a_stop_actions (state : Context.AppState)
    (tripId : string) (stop : TripStop) (order : Types.WorkOrder)
    (today : string) (activeTrip : Trip) :
  findTrip (Context.trips state) tripId = Some activeTrip ->
  exists trip' order',
    completeStop (Some Context.provider_dispatch) state tripId stop order
                 today
    = (Context.appReducer
         (Context.appReducer state (Context.UPDATE_TRIP trip'))
         (Context.UPDATE_WORK_ORDER order'),
       Context.Returned)
    /\ id trip' = tripId
    /\ status trip' = status activeTrip
    /\ startTime trip' = startTime activeTrip
    /\ endTime trip' = endTime activeTrip
    /\ totalTimeSeconds trip' = totalTimeSeconds activeTrip
    /\ map workOrderId (stops trip') = map workOrderId (stops activeTrip)
    /\ map timeSpentSeconds (stops trip')
       = map timeSpentSeconds (stops activeTrip)
    /\ (forall k s, stops activeTrip !! k = Some s ->
          exists s', stops trip' !! k = Some s'
                     /\ isCompleted s'
                        = isCompleted s
                          || String.eqb (workOrderId s) (workOrderId stop))
    /\ Types.wo_id order' = Types.wo_id order
    /\ Types.wo_status order' = Types.Completed
    /\ Types.completedDate order' = Some today.
Proof.
  intros Hfound. unfold completeStop. rewrite Hfound.
  assert (Hid : id activeTrip = tripId).
  { unfold findTrip in Hfound. apply find_some in Hfound as [_ Heq].
    by apply String.eqb_eq. }
  eexists. eexists. split; [reflexivity|].
  cbn [with_trip_stops id status startTime endTime totalTimeSeconds stops
       with_status Types.wo_id Types.wo_status Types.completedDate].
  split_and!; try done.
  - rewrite List.map_map. apply map_ext. intros s.
    by destruct (String.eqb _ _).
  - rewrite List.map_map. apply map_ext. intros s.
    by destruct (String.eqb _ _).
  - intros k s Hk.
    change (map ?f ?l) with (f <$> l). rewrite list_lookup_fmap, Hk.
    eexists. split; [reflexivity|].
    destruct (String.eqb _ _); cbn; [by rewrite orb_true_r|].
    by rewrite orb_false_r.
Qed.

End LifecycleFacts.

Lemma timer_display_is_HH_MM_SS_witness :
  Lifecycle.formatTime 3725 = "01:02:05".
Proof.
  rewrite (timer_display_is_HH_MM_SS 3725) by lia. vm_compute. reflexivity.
Defined.

Lemma starting_a_trip_activates_its_orders_witness :
  exists o',
    (Lifecycle.handleStartTrip
       (DataService.addTrip Examples.utcDate Examples.nov_5 []
          (Examples.approved None)).2
       [Examples.order_a; Examples.order_b]
       (Js.toString Examples.nov_5) Examples.nov_20).2 !! 1 = Some o'
    /\ Types.wo_status o' = Types.Active.
Proof.
  destruct (starting_a_trip_activates_its_orders
              (DataService.addTrip Examples.utcDate Examples.nov_5 []
                 (Examples.approved None)).2
              [Examples.order_a; Examples.order_b]
              (Js.toString Examples.nov_5) Examples.nov_20
              (DataService.addTrip Examples.utcDate Examples.nov_5 []
                 (Examples.approved None)).1)
    as (_ & _ & _ & _ & Hactive).
  - vm_compute. reflexivity.
  - destruct (Hactive 1 Examples.order_b eq_refl) as (o' & Ho' & Hstatus & _).
    + vm_compute. apply elem_of_cons. right. by left.
    + exists o'. split; [exact Ho'|exact Hstatus].
Defined.

(** ** An edit whose recalculation sends nothing *)
Section FailedStart.
Import Directions Types Route Editor.

Lemma apply_effects_app (s : EditorState) (es es' : list Effect) :
  apply_effects s (es ++ es') = apply_effects (apply_effects s es) es'.
Proof. apply fold_left_app. Qed.

Lemma apply_effects_RouteCalls (s : EditorState)
    (rs : list DirectionsRequest) :
  apply_effects s (map RouteCall rs) = s.
Proof.
  revert s. induction rs as [|r rs IH]; intros s; [reflexivity|]. apply IH.
Qed.

(** When the maps script does not load, or an endpoint of a chunk is
    missing, the edit is kept and nothing is awaited: the trip on display
    has the new stops with the metrics of before the edit, the busy flag is
    off and an error message is shown. *)
Theorem edit_without_route_keeps_old_metrics mapsLoaded (s : EditorState)
    (t : SuggestedTrip) (newStops : list SuggestedStop) :
  awaiting (handleStopsChange mapsLoaded (Some t) newStops) = None ->
  let s' :=
    apply_effects s
      (start_effects (handleStopsChange mapsLoaded (Some t) newStops)) in
  editableTrip s' = Some (with_stops t newStops)
  /\ metrics_of <$> editableTrip s' = Some (metrics_of t)
  /\ isRecalculating s' = false
  /\ (recalculationError s' = Some MAPS_LOAD_MESSAGE
      \/ recalculationError s' = Some MISSING_ENDPOINT_MESSAGE).
Proof.
  cbn [handleStopsChange awaiting start_effects]. intros Hnone.
  change (apply_effects s (SetEditableTrip ?x :: ?es))
    with (apply_effects (apply_effect s (SetEditableTrip x)) es).
  set (s1 := apply_effect s _).
  assert (Htrip : editableTrip
                    (apply_effects s1
                       (start_effects
                          (recalculate_start mapsLoaded
                             (with_stops t newStops))))
                  = Some (with_stops t newStops)).
  { rewrite apply_effects_keeps_trip
      by apply recalculate_start_writes_no_trip. reflexivity. }
  cbn zeta. rewrite Htrip. split; [reflexivity|]. split; [reflexivity|].
  revert Hnone. unfold recalculate_start.
  destruct mapsLoaded; cbn [negb].
  - destruct (issue_loop _ _ _) as [rs|rs]; cbn [awaiting start_effects];
      [discriminate|]. intros _.
    rewrite !apply_effects_app, apply_effects_RouteCalls.
    split; [reflexivity|]. by right.
  - intros _. split; [reflexivity|]. by left.
Qed.

End FailedStart.

Lemma edit_without_route_keeps_old_metrics_witness :
  Types.metrics_of
    <$> Editor.editableTrip
          (Editor.apply_effects (Editor.ui Examples.idle_session)
             (Editor.start_effects
                (Editor.handleStopsChange false (Some Examples.empty_trip)
                   Examples.stops_B)))
  = Some (Types.metrics_of Examples.empty_trip).
Proof.
  destruct (edit_without_route_keeps_old_metrics false
              (Editor.ui Examples.idle_session) Examples.empty_trip
              Examples.stops_B eq_refl) as (_ & Hmetrics & _).
  exact Hmetrics.
Defined.
